(** * ParameterParser (annlight/src/ParameterParser.cpp)

    A shallow embedding of the key/value configuration reader and the
    properties of its registration, parsing, trimming and serialisation. *)

From Stdlib Require Import ZArith Lia Bool List Ascii String.
From Stdlib Require Import Numbers.DecimalString Structures.OrderedTypeEx Sorting.Sorted.
From Equations Require Import Equations.
From Equations.Prop Require Import Logic.
Import ListNotations.

Open Scope string_scope.
Open Scope Z_scope.

(** ** Outcomes of a call

    A call returns, throws a C++ exception, or performs an out-of-bounds
    [operator[]] read, whose behaviour the language leaves undefined. *)

Inductive exception : Type :=
| ParserException (what : string)
| out_of_range.

Inductive outcome (A : Type) : Type :=
| Returns (a : A)
| Throws (e : exception)
| Undefined.

Arguments Returns {A} a.
Arguments Throws {A} e.
Arguments Undefined {A}.

(** ** Machine integers *)

(** [unsigned] is 32 bits wide: arithmetic on it wraps modulo 2^32. *)
Definition unsigned (z : Z) : Z := z mod 2 ^ 32.

(** ** std::string *)

Module StdString.

(** [std::string::npos], the largest [size_type]. *)
Definition npos : Z := 2 ^ 64 - 1.

Definition size (s : string) : Z := Z.of_nat (String.length s).

(** [s[pos]]: the character at [pos] for [pos < size()], the null
    character for [pos == size()]; any larger [pos] is out of bounds. *)
Definition at_ (s : string) (pos : Z) : outcome ascii :=
  if (0 <=? pos) && (pos <=? size s) then
    match String.get (Z.to_nat pos) s with
    | Some c => Returns c
    | None => Returns zero
    end
  else Undefined.

(** [s.erase(pos, n)]: drops [min(n, size() - pos)] characters from
    [pos] on; throws [std::out_of_range] when [pos > size()]. *)
Definition erase (s : string) (pos n : Z) : outcome string :=
  if (0 <=? pos) && (pos <=? size s) then
    let k := Z.min n (size s - pos) in
    Returns (String.substring 0 (Z.to_nat pos) s ++
             String.substring (Z.to_nat (pos + k)) (Z.to_nat (size s - pos - k)) s)
  else Throws out_of_range.

(** [s.substr(pos, n)]: [min(n, size() - pos)] characters from [pos]
    on; throws [std::out_of_range] when [pos > size()]. *)
Definition substr (s : string) (pos n : Z) : outcome string :=
  if (0 <=? pos) && (pos <=? size s) then
    Returns (String.substring (Z.to_nat pos) (Z.to_nat (Z.min n (size s - pos))) s)
  else Throws out_of_range.

(** [s.find(t, 0)]: position of the first occurrence of [t], or [npos]. *)
Definition find (s t : string) : Z :=
  match String.index 0 t s with
  | Some k => Z.of_nat k
  | None => npos
  end.

(** [s.find(c)] for a single character. *)
Definition find_char (s : string) (c : ascii) : Z :=
  find s (String c EmptyString).

End StdString.

(** ** ParameterParser::trim *)

Definition space : ascii := " "%char.

(** The test of the first loop: [i < str.length() && str[i] == ' ']. *)
Definition leading_test (i : Z) (str : string) : outcome bool :=
  if i <? StdString.size str then
    match StdString.at_ str i with
    | Returns c => Returns (Ascii.eqb c space)
    | Throws e => Throws e
    | Undefined => Undefined
    end
  else Returns false.

(** The test of the second loop: [i >= 0 && str[i] == ' '], where
    [i >= 0] holds of every [unsigned]. *)
Definition trailing_test (i : Z) (str : string) : outcome bool :=
  if 0 <=? i then
    match StdString.at_ str i with
    | Returns c => Returns (Ascii.eqb c space)
    | Throws e => Throws e
    | Undefined => Undefined
    end
  else Returns false.

(** Both loops erase a character each time round, and only where they
    have read a space, which lies inside the string: the length of the
    string is the measure by which they end. *)
Lemma at_space_in_range str i :
  StdString.at_ str i = Returns space -> 0 <= i < StdString.size str.
Proof.
  unfold StdString.at_, StdString.size.
  destruct (0 <=? i) eqn:H0; simpl; [|discriminate].
  destruct (i <=? Z.of_nat (String.length str)) eqn:H1; [|discriminate].
  apply Z.leb_le in H0, H1.
  destruct (String.get (Z.to_nat i) str) eqn:G.
  - intros _. split; [assumption|].
    destruct (Z.eq_dec i (Z.of_nat (String.length str))) as [->|]; [|lia].
    rewrite Nat2Z.id in G.
    assert (String.get (String.length str) str = None) as E.
    { clear. induction str; simpl; auto. }
    congruence.
  - intros E. inversion E.
Qed.

Lemma eqb_space c : Ascii.eqb c space = true -> c = space.
Proof. apply Ascii.eqb_eq. Qed.

Lemma length_substring_le n m s : (String.length (String.substring n m s) <= m)%nat.
Proof.
  revert n m. induction s as [|c s IH]; intros [|n] [|m]; simpl; try lia.
  - specialize (IH 0%nat m). lia.
  - apply IH.
  - apply IH.
Qed.

Lemma length_append s t : String.length (s ++ t) = (String.length s + String.length t)%nat.
Proof. induction s; simpl; congruence. Qed.

Lemma erase_shrinks str i str' :
  0 <= i < StdString.size str ->
  StdString.erase str i 1 = Returns str' ->
  (String.length str' < String.length str)%nat.
Proof.
  unfold StdString.erase, StdString.size. intros Hi.
  destruct (0 <=? i) eqn:H0; simpl; [|discriminate].
  destruct (i <=? Z.of_nat (String.length str)) eqn:H1; [|discriminate].
  intros E. inversion E; subst str'; clear E.
  rewrite length_append.
  pose proof (length_substring_le 0 (Z.to_nat i) str).
  pose proof (length_substring_le
    (Z.to_nat (i + Z.min 1 (Z.of_nat (String.length str) - i)))
    (Z.to_nat (Z.of_nat (String.length str) - i - Z.min 1 (Z.of_nat (String.length str) - i))) str).
  lia.
Defined.

Lemma leading_test_in_range i str :
  leading_test i str = Returns true -> 0 <= i < StdString.size str.
Proof.
  unfold leading_test. destruct (i <? StdString.size str); [|discriminate].
  destruct (StdString.at_ str i) as [c| |] eqn:A; try discriminate.
  intros E. inversion E as [E']. apply eqb_space in E'. subst c.
  now apply at_space_in_range.
Defined.

Lemma trailing_test_in_range i str :
  trailing_test i str = Returns true -> 0 <= i < StdString.size str.
Proof.
  unfold trailing_test. destruct (0 <=? i); [|discriminate].
  destruct (StdString.at_ str i) as [c| |] eqn:A; try discriminate.
  intros E. inversion E as [E']. apply eqb_space in E'. subst c.
  now apply at_space_in_range.
Defined.

(** The first loop, entered with [i = 0]:
    [while (i < str.length() && str[i] == ' ') { str.erase(i, 1); i++; }] *)
Equations? trim_leading (i : Z) (str : string) : outcome string
  by wf (String.length str) lt :=
trim_leading i str with inspect (leading_test i str) := {
  | exist _ (Returns true) Ht with inspect (StdString.erase str i 1) := {
    | exist _ (Returns str') He => trim_leading (unsigned (i + 1)) str'
    | exist _ (Throws e) _ => Throws e
    | exist _ Undefined _ => Undefined };
  | exist _ (Returns false) _ => Returns str
  | exist _ (Throws e) _ => Throws e
  | exist _ Undefined _ => Undefined }.
Proof.
  eapply erase_shrinks; [|eassumption]. now apply leading_test_in_range.
Defined.

(** The second loop, entered with [i = str.length() - 1]:
    [while (i >= 0 && str[i] == ' ') { str.erase(i, 1); i--; }] *)
Equations? trim_trailing (i : Z) (str : string) : outcome string
  by wf (String.length str) lt :=
trim_trailing i str with inspect (trailing_test i str) := {
  | exist _ (Returns true) Ht with inspect (StdString.erase str i 1) := {
    | exist _ (Returns str') He => trim_trailing (unsigned (i - 1)) str'
    | exist _ (Throws e) _ => Throws e
    | exist _ Undefined _ => Undefined };
  | exist _ (Returns false) _ => Returns str
  | exist _ (Throws e) _ => Throws e
  | exist _ Undefined _ => Undefined }.
Proof.
  eapply erase_shrinks; [|eassumption]. now apply trailing_test_in_range.
Defined.

(** [ParameterParser::trim]: the string after both loops. *)
Definition trim (str : string) : outcome string :=
  match trim_leading (unsigned 0) str with
  | Returns str1 => trim_trailing (unsigned (StdString.size str1 - 1)) str1
  | Throws e => Throws e
  | Undefined => Undefined
  end.

(** ** std::map<std::string, std::string>

    The map keeps its entries ordered by key under [std::less], the
    lexicographic order of the keys' character codes; an iteration visits
    them in that order.  The model is the sequence an iteration visits. *)

Module StdMap.

Definition t : Type := list (string * string).

Definition empty : t := [].

(** [m.find(k)]: the value stored under [k], or [None] for [m.end()]. *)
Fixpoint find (k : string) (m : t) : option string :=
  match m with
  | [] => None
  | (k', v') :: m' => if String.eqb k' k then Some v' else find k m'
  end.

(** [m.insert(make_pair(k, v))]: places the pair at its position in the
    order; a map that already holds [k] is left as it is. *)
Fixpoint insert (k v : string) (m : t) : t :=
  match m with
  | [] => [(k, v)]
  | (k', v') :: m' =>
      match String.compare k k' with
      | Lt => (k, v) :: m
      | Eq => m
      | Gt => (k', v') :: insert k v m'
      end
  end.

(** [it->second = v] for the iterator [it = m.find(k)]. *)
Fixpoint assign (k v : string) (m : t) : t :=
  match m with
  | [] => []
  | (k', v') :: m' =>
      if String.eqb k' k then (k', v) :: m' else (k', v') :: assign k v m'
  end.

Definition keys (m : t) : list string := map fst m.

(** The order of the keys, and the maps whose keys ascend strictly. *)
Definition key_lt (a b : string) : Prop := String.compare a b = Lt.

Definition ordered (m : t) : Prop := StronglySorted key_lt (keys m).

End StdMap.

(** ** The object and what surrounds it *)

Record ParameterParser : Type := {
  nameValueMap : StdMap.t;
  commentString : string
}.

(** What the program can observe outside the object: the characters
    written to [std::cout], the files that can be opened for reading with
    their contents, and the paths that can be opened for writing. *)
Record World : Type := {
  cout : string;
  files : string -> option string;
  writable : string -> bool
}.

Record state : Type := {
  self : ParameterParser;
  world : World
}.

(** A method runs on the object and the world, and leaves both as they
    are at the point where it returns or throws. *)
Definition M (A : Type) : Type := state -> outcome A * state.

Definition ret {A} (a : A) : M A := fun s => (Returns a, s).

Definition bind {A B} (m : M A) (k : A -> M B) : M B :=
  fun s =>
    match m s with
    | (Returns a, s') => k a s'
    | (Throws e, s') => (Throws e, s')
    | (Undefined, s') => (Undefined, s')
    end.

Definition throw {A} (e : exception) : M A := fun s => (Throws e, s).

Definition lift {A} (o : outcome A) : M A := fun s => (o, s).

Definition gets {A} (f : state -> A) : M A := fun s => (Returns (f s), s).

Definition modify (f : state -> state) : M unit := fun s => (Returns tt, f s).

(** Sequencing of calls that touch neither the object nor the world. *)
Definition obind {A B} (o : outcome A) (k : A -> outcome B) : outcome B :=
  match o with
  | Returns a => k a
  | Throws e => Throws e
  | Undefined => Undefined
  end.

Declare Scope outcome_scope.
Delimit Scope outcome_scope with outcome.
Notation "x <- o ;; k" := (obind o (fun x => k))
  (at level 61, o at next level, right associativity) : outcome_scope.

Declare Scope method_scope.
Delimit Scope method_scope with method.
Notation "x <- m ;; k" := (bind m (fun x => k))
  (at level 61, m at next level, right associativity) : method_scope.
Notation "m ;; k" := (bind m (fun _ => k))
  (at level 61, right associativity) : method_scope.
Open Scope method_scope.

Definition set_nameValueMap (m : StdMap.t) (s : state) : state :=
  {| self := {| nameValueMap := m; commentString := commentString (self s) |};
     world := world s |}.

Definition set_commentString (c : string) (s : state) : state :=
  {| self := {| nameValueMap := nameValueMap (self s); commentString := c |};
     world := world s |}.

Definition put_cout (text : string) (s : state) : state :=
  {| self := self s;
     world := {| cout := cout (world s) ++ text;
                 files := files (world s);
                 writable := writable (world s) |} |}.

Definition put_file (filename content : string) (s : state) : state :=
  {| self := self s;
     world := {| cout := cout (world s);
                 files := fun f => if String.eqb f filename then Some content
                                   else files (world s) f;
                 writable := writable (world s) |} |}.

(** ** Text *)

(** The double quote, and the newline that [std::endl] writes. *)
Definition dquote : string := String "034"%char EmptyString.
Definition endl : string := String "010"%char EmptyString.
Definition newline : ascii := "010"%char.

(** [stream << n] for an [unsigned]: its decimal digits. *)
Definition decimal (n : Z) : string :=
  NilZero.string_of_uint (N.to_uint (Z.to_N n)).

(** The lines that successive [getline(inFile, line, newline)] calls
    extract from a file: each call takes the characters up to the next
    newline and drops the newline; the call that extracts nothing at the
    end of the file fails and ends the loop. *)
Fixpoint getlines (content : string) : list string :=
  match content with
  | EmptyString => []
  | String c rest =>
      if Ascii.eqb c newline then EmptyString :: getlines rest
      else match getlines rest with
           | [] => [String c EmptyString]
           | line :: lines => String c line :: lines
           end
  end.

(** ** The exceptions the methods throw

    Every failure is a [ParserException] carrying a message; the kinds of
    failure differ by the message alone. *)

(** Thrown by [addParameter] for a name that is registered already. *)
Definition already_exists (name : string) : exception :=
  ParserException ("Parameter " ++ dquote ++ name ++ dquote ++ " already exists!").

(** Thrown by [readParameters] and [writeParameterFile] for a file that
    does not open. *)
Definition cannot_read (filename : string) : exception :=
  ParserException ("Could not open file " ++ dquote ++ filename ++ dquote ++ " for reading!").

Definition cannot_write (filename : string) : exception :=
  ParserException ("Could not open file " ++ dquote ++ filename ++ dquote ++ " for writing!").

(** Thrown by [readParameters] for a line with no space in it, and for a
    line whose value is empty. *)
Definition parameter_without_value (lineCount : Z) (filename : string) : exception :=
  ParserException ("Found parameter without value in line " ++ decimal lineCount ++
                   " of configuration file " ++ dquote ++ filename ++ dquote ++ "!").

Definition identifier_without_value (lineCount : Z) (filename : string) : exception :=
  ParserException ("Found identifier without value in line " ++ decimal lineCount ++
                   " of configuration file " ++ dquote ++ filename ++ dquote ++ "!").

(** Thrown by [getParameterValue] for a name that is not registered, and
    for a registered name that holds no value. *)
Definition unknown_name (name : string) : exception :=
  ParserException ("Unknown parameter name: " ++ dquote ++ name ++ dquote).

Definition no_value (name : string) : exception :=
  ParserException ("No value for parameter " ++ dquote ++ name ++ dquote ++
                   " read and no default value defined.").

(** The line [readParameters] writes to [std::cout] for a name that is
    not registered. *)
Definition unknown_identifier_warning (name : string) : string :=
  "Unknown parameter identifier " ++ dquote ++ name ++ dquote ++ " will be ignored!" ++ endl.

(** ** The methods *)

Definition NO_DEFAULT_VALUE_STRING : string := "_#N/A#_".
Definition DEFAULT_COMMENT_STRING : string := "#".

(** [ParameterParser::ParameterParser()] *)
Definition new_ParameterParser : ParameterParser :=
  {| nameValueMap := StdMap.empty; commentString := DEFAULT_COMMENT_STRING |}.

(** [ParameterParser::addParameter(name, defaultValue)], where an omitted
    [defaultValue] is the empty string. *)
Definition addParameter (name defaultValue : string) : M unit :=
  nameFound <- gets (fun s => StdMap.find name (nameValueMap (self s))) ;;
  match nameFound with
  | Some _ => throw (already_exists name)
  | None =>
      if String.eqb defaultValue EmptyString
      then modify (fun s => set_nameValueMap
             (StdMap.insert name NO_DEFAULT_VALUE_STRING (nameValueMap (self s))) s)
      else modify (fun s => set_nameValueMap
             (StdMap.insert name defaultValue (nameValueMap (self s))) s)
  end.

(** [ParameterParser::setCommentString(commentString)] *)
Definition setCommentString (commentString : string) : M unit :=
  modify (set_commentString commentString).

(** The first half of the body of the [while (getline(...))] loop of
    [readParameters], which reads the line and leaves the object alone: it
    skips the line ([None]), throws, or finds a name and a value. *)
Definition scan_line (comment filename : string) (lineCount : Z) (line : string)
  : outcome (option (string * string)) :=
  (let commentStart := StdString.find line comment in
   lineToParse <- StdString.substr line 0 commentStart ;;
   if StdString.size lineToParse =? 0 then Returns None
   else
     let nameEnd := StdString.find_char lineToParse space in
     if nameEnd =? StdString.npos
     then Throws (parameter_without_value lineCount filename)
     else
       name <- StdString.substr lineToParse 0 nameEnd ;;
       value <- StdString.substr lineToParse (nameEnd + 1) StdString.npos ;;
       name <- trim name ;;
       value <- trim value ;;
       if String.eqb value EmptyString
       then Throws (identifier_without_value lineCount filename)
       else Returns (Some (name, value)))%outcome.

(** The body of the loop for one line, up to the increment of
    [lineCount], which follows on both ways out of the body ([continue]
    and the end). *)
Definition parse_line (filename : string) (lineCount : Z) (line : string) : M unit :=
  comment <- gets (fun s => commentString (self s)) ;;
  scanned <- lift (scan_line comment filename lineCount line) ;;
  match scanned with
  | None => ret tt
  | Some (name, value) =>
      found <- gets (fun s => StdMap.find name (nameValueMap (self s))) ;;
      match found with
      | None => modify (put_cout (unknown_identifier_warning name))
      | Some _ => modify (fun s => set_nameValueMap
                    (StdMap.assign name value (nameValueMap (self s))) s)
      end
  end.

(** The loop of [readParameters] over the lines that are left. *)
Fixpoint read_lines (filename : string) (lineCount : Z) (lines : list string) : M unit :=
  match lines with
  | [] => ret tt
  | line :: rest =>
      parse_line filename lineCount line ;;
      read_lines filename (unsigned (lineCount + 1)) rest
  end.

(** [ParameterParser::readParameters(filename)] *)
Definition readParameters (filename : string) : M unit :=
  inFile <- gets (fun s => files (world s) filename) ;;
  match inFile with
  | None => throw (cannot_read filename)
  | Some content => read_lines filename 1 (getlines content)
  end.

(** What the loop of [writeParameterFile] appends to [outFile] for the
    entries from [it] on. *)
Fixpoint write_entries (outFile : string) (it : StdMap.t) : string :=
  match it with
  | [] => outFile
  | (first, second) :: next =>
      if negb (String.eqb second NO_DEFAULT_VALUE_STRING)
      then write_entries (outFile ++ first ++ " " ++ second ++ endl) next
      else write_entries outFile next
  end.

(** [ParameterParser::writeParameterFile(filename)]: the file is created
    or truncated, written, and closed. *)
Definition writeParameterFile (filename : string) : M unit :=
  opened <- gets (fun s => writable (world s) filename) ;;
  if opened : bool then
    this <- gets self ;;
    let outFile := EmptyString ++ commentString this ++
                   " Default config file generated by ParameterParser" ++ endl in
    modify (put_file filename (write_entries outFile (nameValueMap this)))
  else throw (cannot_write filename).

(** What the loop of [writeCurrentParameters] appends to [stream] for the
    entries from [it] on. *)
Fixpoint write_current (stream : string) (it : StdMap.t) : string :=
  match it with
  | [] => stream
  | (first, second) :: next =>
      if negb (String.eqb second NO_DEFAULT_VALUE_STRING)
      then write_current (stream ++ first ++ " = " ++ second ++ endl) next
      else write_current (stream ++ first ++ " <no value set>" ++ endl) next
  end.

(** [ParameterParser::writeCurrentParameters(stream)], on the text the
    stream holds so far. *)
Definition writeCurrentParameters (stream : string) : M string :=
  this <- gets self ;;
  ret (write_current (stream ++ "Current parameters:" ++ endl) (nameValueMap this)).

(** [ParameterParser::getParameterValue(name) const] *)
Definition getParameterValue (name : string) : M string :=
  found <- gets (fun s => StdMap.find name (nameValueMap (self s))) ;;
  match found with
  | None => throw (unknown_name name)
  | Some value =>
      if String.eqb value NO_DEFAULT_VALUE_STRING
      then throw (no_value name)
      else ret value
  end.

(** A world with nothing written and no files, where every path can be
    opened for writing. *)
Definition empty_world : World :=
  {| cout := EmptyString; files := fun _ => None; writable := fun _ => true |}.

Definition fresh (w : World) : state := {| self := new_ParameterParser; world := w |}.


(** ** Notions the properties are stated with *)

(** A string of [k] spaces. *)
Fixpoint spaces (k : nat) : string :=
  match k with
  | O => EmptyString
  | S k' => String space (spaces k')
  end.

(** No character of the string is a space. *)
Fixpoint space_free (s : string) : bool :=
  match s with
  | EmptyString => true
  | String c s' => negb (Ascii.eqb c space) && space_free s'
  end.

(** Every character of the string is a space. *)
Fixpoint blank (s : string) : bool :=
  match s with
  | EmptyString => true
  | String c s' => Ascii.eqb c space && blank s'
  end.

(** No character of the string is a newline. *)
Fixpoint newline_free (s : string) : bool :=
  match s with
  | EmptyString => true
  | String c s' => negb (Ascii.eqb c newline) && newline_free s'
  end.

(** Concatenation of the lines of a text. *)
Fixpoint join (lines : list string) : string :=
  match lines with
  | [] => EmptyString
  | line :: rest => line ++ join rest
  end.

(** An entry holds a value when its string is not the marker. *)
Definition holds_value (entry : string * string) : bool :=
  negb (String.eqb (snd entry) NO_DEFAULT_VALUE_STRING).

(** The line of an entry in a parameter file and in a dump. *)
Definition file_line (entry : string * string) : string :=
  fst entry ++ " " ++ snd entry ++ endl.

Definition dump_line (entry : string * string) : string :=
  if holds_value entry
  then fst entry ++ " = " ++ snd entry ++ endl
  else fst entry ++ " <no value set>" ++ endl.

(** [lineCount] after [k] more lines. *)
Fixpoint advance (lineCount : Z) (k : nat) : Z :=
  match k with
  | O => lineCount
  | S k' => advance (unsigned (lineCount + 1)) k'
  end.

(** The string without its spaces. *)
Fixpoint unspaced (s : string) : string :=
  match s with
  | EmptyString => EmptyString
  | String c s' => if Ascii.eqb c space then unspaced s' else String c (unspaced s')
  end.

(** The string has a first and a last character, and neither is a space. *)
Definition first_not_space (s : string) : bool :=
  match s with
  | EmptyString => false
  | String c _ => negb (Ascii.eqb c space)
  end.

Fixpoint last_not_space (s : string) : bool :=
  match s with
  | EmptyString => false
  | String c EmptyString => negb (Ascii.eqb c space)
  | String _ s' => last_not_space s'
  end.

Definition trimmed (s : string) : bool := first_not_space s && last_not_space s.

(** No entry of the map holds the empty string. *)
Definition values_nonempty (m : StdMap.t) : Prop :=
  Forall (fun entry => snd entry <> EmptyString) m.

(** An entry whose line in a parameter file reads back as the entry: the
    name is not empty and holds no space, the value neither starts nor ends
    with a space, neither holds a newline, the comment string does not
    occur in the line, and the line is shorter than 2^32 characters. *)
Definition plain_entry (comment : string) (entry : string * string) : Prop :=
  fst entry <> EmptyString /\
  space_free (fst entry) = true /\
  trimmed (snd entry) = true /\
  newline_free (fst entry) = true /\
  newline_free (snd entry) = true /\
  String.index 0 comment (fst entry ++ String space (snd entry)) = None /\
  StdString.size (fst entry ++ String space (snd entry)) < 2 ^ 32.

(** The line of an entry in a parameter file, without its newline. *)
Definition entry_line (entry : string * string) : string :=
  fst entry ++ String space (snd entry).

(** The text of the first line of a parameter file, behind the comment
    string. *)
Definition header_text : string := " Default config file generated by ParameterParser".

(** What the loop of [readParameters] does to the map, read off the
    lines alone: the assignments to registered names, in the order of the
    lines, up to the first line that does not return, and the way the loop
    ends. *)
Fixpoint line_effects (registered : string -> bool) (comment filename : string)
  (lineCount : Z) (lines : list string) : list (string * string) * outcome unit :=
  match lines with
  | [] => ([], Returns tt)
  | line :: rest =>
      match scan_line comment filename lineCount line with
      | Returns None => line_effects registered comment filename (unsigned (lineCount + 1)) rest
      | Returns (Some (name, value)) =>
          let (assignments, o) :=
            line_effects registered comment filename (unsigned (lineCount + 1)) rest in
          (if registered name then (name, value) :: assignments else assignments, o)
      | Throws e => ([], Throws e)
      | Undefined => ([], Undefined)
      end
  end.

Definition assign_all (assignments : list (string * string)) (m : StdMap.t) : StdMap.t :=
  fold_left (fun m' entry => StdMap.assign (fst entry) (snd entry) m') assignments m.

Definition registered_in (m : StdMap.t) (k : string) : bool :=
  match StdMap.find k m with
  | Some _ => true
  | None => false
  end.

(** ** States a program can reach *)

(** The public methods. *)
Inductive method : forall A : Type, M A -> Prop :=
| method_addParameter name defaultValue : method unit (addParameter name defaultValue)
| method_setCommentString comment : method unit (setCommentString comment)
| method_readParameters filename : method unit (readParameters filename)
| method_writeParameterFile filename : method unit (writeParameterFile filename)
| method_writeCurrentParameters stream : method string (writeCurrentParameters stream)
| method_getParameterValue name : method string (getParameterValue name).

(** An object starts from its constructor and changes by the calls of its
    methods that return or throw; the world may change between the calls. *)
Inductive reachable : state -> Prop :=
| reachable_new (w : World) : reachable (fresh w)
| reachable_call (A : Type) (m : M A) (s s' : state) (o : outcome A) :
    reachable s -> method A m -> m s = (o, s') -> o <> Undefined -> reachable s'
| reachable_world (s : state) (w : World) :
    reachable s -> reachable {| self := self s; world := w |}.

Definition preserves {A} (P : state -> Prop) (m : M A) : Prop :=
  forall s o s', P s -> m s = (o, s') -> P s'.

(** A name that was registered with no default, with the empty default
    or with the text of the marker as its default, and that no line of a
    file read since has scanned to. *)
Inductive pristine (name : string) : state -> Prop :=
| pristine_registered (s s' : state) (defaultValue : string) :
    addParameter name defaultValue s = (Returns tt, s') ->
    defaultValue = EmptyString \/ defaultValue = NO_DEFAULT_VALUE_STRING ->
    pristine name s'
| pristine_addParameter (s s' : state) (other defaultValue : string) (o : outcome unit) :
    pristine name s -> addParameter other defaultValue s = (o, s') -> pristine name s'
| pristine_setCommentString (s s' : state) (comment : string) (o : outcome unit) :
    pristine name s -> setCommentString comment s = (o, s') -> pristine name s'
| pristine_readParameters (s s' : state) (filename : string) (o : outcome unit) :
    pristine name s -> readParameters filename s = (o, s') ->
    (forall content line value,
       files (world s) filename = Some content -> In line (getlines content) ->
       scan_line (commentString (self s)) filename 1 line <> Returns (Some (name, value))) ->
    pristine name s'
| pristine_writeParameterFile (s s' : state) (filename : string) (o : outcome unit) :
    pristine name s -> writeParameterFile filename s = (o, s') -> pristine name s'
| pristine_writeCurrentParameters (s s' : state) (stream : string) (o : outcome string) :
    pristine name s -> writeCurrentParameters stream s = (o, s') -> pristine name s'
| pristine_getParameterValue (s s' : state) (asked : string) (o : outcome string) :
    pristine name s -> getParameterValue asked s = (o, s') -> pristine name s'
| pristine_world (s : state) (w : World) :
    pristine name s -> pristine name {| self := self s; world := w |}.

(** The keys of the object's map ascend. *)
Definition ordered_state (s : state) : Prop := StdMap.ordered (nameValueMap (self s)).

(** No entry of the object holds the empty string. *)
Definition values_nonempty_state (s : state) : Prop :=
  values_nonempty (nameValueMap (self s)).

(** ** Sample states *)

(** Three registrations, out of order, one of them without a default. *)
Definition two_defaults : state :=
  snd ((addParameter "b" "2" ;; addParameter "a" "1" ;; addParameter "c" "") (fresh empty_world)).

(** ["x"] registered, and a file with one line that ends in a comment. *)
Definition comment_example : state :=
  put_file "F" ("x 5 # comment" ++ endl)
    (snd (addParameter "x" "" (fresh empty_world))).

(** Two registrations, and a file that sets a name that is not one of
    them. *)
Definition unknown_example : state :=
  put_file "F" ("unknownname 5" ++ endl)
    (snd ((addParameter "x" "1" ;; addParameter "y" "") (fresh empty_world))).

(** Two registrations, before a file of four lines is read. *)
Definition abort_example : state :=
  snd ((addParameter "x" "" ;; addParameter "y" "1") (fresh empty_world)).

(** A second object that registers the names of [two_defaults] with
    other defaults, and sees the file that [two_defaults] wrote. *)
Definition reader_example : state :=
  {| self := self (snd ((addParameter "a" "" ;; addParameter "b" "z" ;; addParameter "d" "4")
                          (fresh empty_world)));
     world := world (snd (writeParameterFile "F" two_defaults)) |}.

(** Two registrations, and a file whose line starts with a space. *)
Definition leading_space_example : state :=
  put_file "F" (" unknownname 5" ++ endl)
    (snd ((addParameter "x" "1" ;; addParameter "y" "") (fresh empty_world))).

(** Registrations with and without a default, one of them with a default
    that is the text of the marker. *)
Definition marker_example : state :=
  snd ((addParameter "b" "2" ;; addParameter "a" "" ;; addParameter "c" NO_DEFAULT_VALUE_STRING)
         (fresh empty_world)).

(** * Properties *)

(** ** Strings *)

Section StringFacts.

Local Open Scope nat_scope.

Lemma append_assoc (a b c : string) : ((a ++ b) ++ c = a ++ (b ++ c))%string.
Proof. induction a; simpl; congruence. Qed.

Lemma append_empty_r (a : string) : (a ++ EmptyString = a)%string.
Proof. induction a; simpl; congruence. Qed.

Lemma substring_all (s : string) : String.substring 0 (String.length s) s = s.
Proof. induction s; simpl; congruence. Qed.

Lemma substring_prefix (a t : string) :
  String.substring 0 (String.length a) (a ++ t) = a.
Proof.
  induction a as [|c a IH]; simpl.
  - destruct t; reflexivity.
  - now rewrite IH.
Qed.

Lemma substring_skip (a t : string) (n m : nat) :
  String.substring (String.length a + n) m (a ++ t) = String.substring n m t.
Proof. induction a; simpl; auto. Qed.

Lemma get_middle (a b : string) (c : ascii) :
  String.get (String.length a) (a ++ String c b) = Some c.
Proof. induction a; simpl; auto. Qed.

Lemma get_length (s : string) : String.get (String.length s) s = None.
Proof. induction s; simpl; auto. Qed.

Lemma length_spaces (k : nat) : String.length (spaces k) = k.
Proof. induction k; simpl; congruence. Qed.

Lemma spaces_add (a b : nat) : spaces (a + b) = (spaces a ++ spaces b)%string.
Proof. induction a; simpl; congruence. Qed.

Lemma spaces_snoc (k : nat) : spaces (S k) = (spaces k ++ String space EmptyString)%string.
Proof. induction k; simpl in *; congruence. Qed.

End StringFacts.

Lemma size_append (a b : string) :
  StdString.size (a ++ b) = StdString.size a + StdString.size b.
Proof. unfold StdString.size. rewrite length_append. lia. Qed.

Lemma size_spaces (k : nat) : StdString.size (spaces k) = Z.of_nat k.
Proof. unfold StdString.size. now rewrite length_spaces. Qed.

Lemma size_nonneg (s : string) : 0 <= StdString.size s.
Proof. unfold StdString.size. lia. Qed.

Lemma size_String (c : ascii) (s : string) :
  StdString.size (String c s) = 1 + StdString.size s.
Proof. unfold StdString.size. simpl String.length. lia. Qed.

(** Reading and erasing the character that follows a prefix [a]. *)
Lemma at_middle (a b : string) (c : ascii) :
  StdString.at_ (a ++ String c b) (StdString.size a) = Returns c.
Proof.
  unfold StdString.at_.
  rewrite size_append, size_String.
  pose proof (size_nonneg a). pose proof (size_nonneg b).
  replace (0 <=? StdString.size a) with true by (symmetry; apply Z.leb_le; lia).
  replace (StdString.size a <=? StdString.size a + (1 + StdString.size b))
    with true by (symmetry; apply Z.leb_le; lia).
  unfold StdString.size. rewrite Nat2Z.id, get_middle. reflexivity.
Qed.

Lemma erase_middle (a b : string) (c : ascii) :
  StdString.erase (a ++ String c b) (StdString.size a) 1 = Returns (a ++ b).
Proof.
  unfold StdString.erase.
  rewrite size_append, size_String.
  pose proof (size_nonneg a). pose proof (size_nonneg b).
  replace (0 <=? StdString.size a) with true by (symmetry; apply Z.leb_le; lia).
  replace (StdString.size a <=? StdString.size a + (1 + StdString.size b))
    with true by (symmetry; apply Z.leb_le; lia).
  simpl andb. cbv zeta.
  replace (Z.min 1 (StdString.size a + (1 + StdString.size b) - StdString.size a))
    with 1 by lia.
  unfold StdString.size.
  replace (Z.to_nat (Z.of_nat (String.length a) + 1))
    with (String.length a + 1)%nat by lia.
  replace (Z.to_nat (Z.of_nat (String.length a) + (1 + Z.of_nat (String.length b))
                     - Z.of_nat (String.length a) - 1))
    with (String.length b) by lia.
  rewrite Nat2Z.id, substring_prefix, substring_skip.
  simpl. now rewrite substring_all.
Qed.

Lemma leading_test_middle (a b : string) (c : ascii) :
  leading_test (StdString.size a) (a ++ String c b) = Returns (Ascii.eqb c space).
Proof.
  unfold leading_test. rewrite at_middle, size_append, size_String.
  pose proof (size_nonneg b).
  replace (StdString.size a <? StdString.size a + (1 + StdString.size b))
    with true by (symmetry; apply Z.ltb_lt; lia).
  reflexivity.
Qed.

Lemma leading_test_past (i : Z) (str : string) :
  StdString.size str <= i -> leading_test i str = Returns false.
Proof.
  intros H. unfold leading_test.
  replace (i <? StdString.size str) with false by (symmetry; apply Z.ltb_ge; lia).
  reflexivity.
Qed.

Lemma trailing_test_middle (a b : string) (c : ascii) :
  trailing_test (StdString.size a) (a ++ String c b) = Returns (Ascii.eqb c space).
Proof.
  unfold trailing_test. rewrite at_middle.
  pose proof (size_nonneg a).
  replace (0 <=? StdString.size a) with true by (symmetry; apply Z.leb_le; lia).
  reflexivity.
Qed.

Lemma trailing_test_out_of_bounds (i : Z) (str : string) :
  StdString.size str < i -> trailing_test i str = Undefined.
Proof.
  intros H. unfold trailing_test, StdString.at_.
  pose proof (size_nonneg str).
  replace (0 <=? i) with true by (symmetry; apply Z.leb_le; lia).
  replace (i <=? StdString.size str) with false by (symmetry; apply Z.leb_gt; lia).
  reflexivity.
Qed.

(** ** The two loops of [trim], one iteration at a time *)

Ltac rewrite_tests :=
  repeat match goal with
         | E : ?t = _ |- context [match ?t with _ => _ end] => rewrite E
         end.

Lemma trim_leading_step i str :
  trim_leading i str =
  match leading_test i str with
  | Returns true =>
      match StdString.erase str i 1 with
      | Returns str' => trim_leading (unsigned (i + 1)) str'
      | Throws e => Throws e
      | Undefined => Undefined
      end
  | Returns false => Returns str
  | Throws e => Throws e
  | Undefined => Undefined
  end.
Proof. funelim (trim_leading i str); rewrite_tests; reflexivity. Qed.

Lemma trim_trailing_step i str :
  trim_trailing i str =
  match trailing_test i str with
  | Returns true =>
      match StdString.erase str i 1 with
      | Returns str' => trim_trailing (unsigned (i - 1)) str'
      | Throws e => Throws e
      | Undefined => Undefined
      end
  | Returns false => Returns str
  | Throws e => Throws e
  | Undefined => Undefined
  end.
Proof. funelim (trim_trailing i str); rewrite_tests; reflexivity. Qed.

Lemma unsigned_small (z : Z) : 0 <= z < 2 ^ 32 -> unsigned z = z.
Proof. intros H. unfold unsigned. now apply Z.mod_small. Qed.

Lemma unsigned_pred (z : Z) : unsigned (unsigned z - 1) = unsigned (z - 1).
Proof. unfold unsigned. apply Zminus_mod_idemp_l. Qed.

Lemma ascii_eqb_false (c d : ascii) : c <> d -> Ascii.eqb c d = false.
Proof. intros H. now apply Ascii.eqb_neq. Qed.

Lemma half_double (n : nat) : ((n + n) / 2 = n)%nat.
Proof. replace (n + n)%nat with (n * 2)%nat by lia. now rewrite Nat.div_mul. Qed.

Lemma half_double_S (n : nat) : ((n + S n) / 2 = n)%nat.
Proof.
  replace (n + S n)%nat with (1 + n * 2)%nat by lia.
  rewrite Nat.div_add by lia. reflexivity.
Qed.

(** ** The first loop skips every other space

    Erasing the character at [i] moves the rest of the string one place to
    the left, and [i++] then steps over the character that took its place:
    of a run of spaces at the front the loop removes the upper half only. *)

Lemma trim_leading_in_run (n j : nat) (t : string) :
  (j < n)%nat -> Z.of_nat j + 1 < 2 ^ 32 ->
  trim_leading (Z.of_nat j) (spaces n ++ t) =
  trim_leading (Z.of_nat j + 1) (spaces (n - 1) ++ t).
Proof.
  intros Hlt Hsmall.
  assert (spaces n ++ t = spaces j ++ String space (spaces (n - j - 1) ++ t)) as E.
  { replace n with (j + S (n - j - 1))%nat at 1 by lia.
    now rewrite spaces_add, append_assoc. }
  rewrite E, trim_leading_step.
  rewrite <- (size_spaces j).
  rewrite leading_test_middle, erase_middle.
  change (Ascii.eqb space space) with true. cbv iota.
  rewrite <- append_assoc, <- spaces_add.
  rewrite !size_spaces, unsigned_small by lia.
  now replace (j + (n - j - 1))%nat with (n - 1)%nat by lia.
Qed.

Lemma trim_leading_run (c1 c2 : ascii) (t : string) :
  c1 <> space -> c2 <> space ->
  forall (d n j : nat),
    (n - j <= d)%nat -> (j <= n + 1)%nat -> Z.of_nat (n + j) < 2 ^ 32 ->
    trim_leading (Z.of_nat j) (spaces n ++ String c1 (String c2 t)) =
    Returns (spaces ((n + j) / 2) ++ String c1 (String c2 t)).
Proof.
  intros Hc1 Hc2. induction d as [|d IH]; intros n j Hd Hj Hsmall.
  - (* the loop is past the run: it reads [c1] or [c2] and stops *)
    rewrite trim_leading_step.
    assert (j = n \/ j = S n) as [-> | ->] by lia.
    + rewrite half_double.
      rewrite <- (size_spaces n) at 1. rewrite leading_test_middle.
      now rewrite (ascii_eqb_false _ _ Hc1).
    + rewrite half_double_S.
      replace (spaces n ++ String c1 (String c2 t))
        with ((spaces n ++ String c1 EmptyString) ++ String c2 t)
        by (now rewrite append_assoc).
      replace (Z.of_nat (S n)) with (StdString.size (spaces n ++ String c1 EmptyString))
        by (rewrite size_append, size_spaces, size_String; unfold StdString.size; simpl; lia).
      now rewrite leading_test_middle, (ascii_eqb_false _ _ Hc2).
  - destruct (Nat.lt_ge_cases j n) as [Hlt | Hge].
    + rewrite (trim_leading_in_run n j) by lia.
      replace (Z.of_nat j + 1) with (Z.of_nat (S j)) by lia.
      rewrite IH by lia.
      replace (n - 1 + S j)%nat with (n + j)%nat by lia. reflexivity.
    + apply IH; lia.
Qed.

(** On a string of spaces alone the first loop leaves spaces alone. *)
Lemma trim_leading_blank :
  forall (d n j : nat),
    (n - j <= d)%nat -> Z.of_nat (n + j) < 2 ^ 32 ->
    exists m, (m <= n)%nat /\ trim_leading (Z.of_nat j) (spaces n) = Returns (spaces m).
Proof.
  induction d as [|d IH]; intros n j Hd Hsmall.
  - exists n. split; [lia|].
    rewrite trim_leading_step, leading_test_past; [reflexivity|].
    rewrite size_spaces. lia.
  - destruct (Nat.lt_ge_cases j n) as [Hlt | Hge].
    + rewrite <- (append_empty_r (spaces n)).
      rewrite (trim_leading_in_run n j) by lia.
      rewrite append_empty_r.
      replace (Z.of_nat j + 1) with (Z.of_nat (S j)) by lia.
      destruct (IH (n - 1)%nat (S j)) as [m [Hm E]]; [lia | lia |].
      exists m. split; [lia | exact E].
    + apply IH; lia.
Qed.

(** ** The second loop

    Its index follows the last character of the string: it removes the
    spaces at the end one by one, and once the string is empty the index
    has wrapped to 4294967295 and the next read is out of bounds. *)

Lemma trim_trailing_run (u : string) (c : ascii) :
  c <> space ->
  forall m : nat,
    StdString.size ((u ++ String c EmptyString) ++ spaces m) <= 2 ^ 32 ->
    trim_trailing (unsigned (StdString.size ((u ++ String c EmptyString) ++ spaces m) - 1))
                  ((u ++ String c EmptyString) ++ spaces m) =
    Returns (u ++ String c EmptyString).
Proof.
  intros Hc. induction m as [|m IH]; intros Hsize.
  - simpl spaces in *. rewrite append_empty_r in *.
    rewrite size_append, size_String in *.
    pose proof (size_nonneg u).
    change (StdString.size EmptyString) with 0 in *.
    rewrite trim_trailing_step, unsigned_small by lia.
    replace (StdString.size u + (1 + 0) - 1) with (StdString.size u) by lia.
    now rewrite trailing_test_middle, (ascii_eqb_false _ _ Hc).
  - rewrite spaces_snoc, <- append_assoc in *.
    set (a := (u ++ String c EmptyString) ++ spaces m) in *.
    rewrite size_append, size_String in Hsize |- *.
    change (StdString.size EmptyString) with 0 in *.
    pose proof (size_nonneg a).
    replace (StdString.size a + (1 + 0) - 1) with (StdString.size a) by lia.
    rewrite trim_trailing_step, unsigned_small by lia.
    rewrite trailing_test_middle, erase_middle.
    change (Ascii.eqb space space) with true. cbv iota.
    rewrite append_empty_r. apply IH. lia.
Qed.

Lemma trim_trailing_blank :
  forall m : nat,
    Z.of_nat m <= 2 ^ 32 ->
    trim_trailing (unsigned (StdString.size (spaces m) - 1)) (spaces m) = Undefined.
Proof.
  induction m as [|m IH]; intros Hsize.
  - rewrite trim_trailing_step. reflexivity.
  - rewrite spaces_snoc.
    rewrite size_append, size_String.
    change (StdString.size EmptyString) with 0.
    rewrite size_spaces.
    replace (Z.of_nat m + (1 + 0) - 1) with (StdString.size (spaces m))
      by (rewrite size_spaces; lia).
    rewrite trim_trailing_step, unsigned_small by (rewrite size_spaces; lia).
    rewrite trailing_test_middle, erase_middle.
    change (Ascii.eqb space space) with true. cbv iota.
    rewrite append_empty_r. apply IH. lia.
Qed.

Lemma space_free_last (s : string) :
  space_free s = true -> s <> EmptyString ->
  exists u c, s = u ++ String c EmptyString /\ c <> space.
Proof.
  induction s as [|a s IH]; intros Hfree Hne; [congruence|].
  simpl in Hfree. apply andb_true_iff in Hfree as [Ha Hs].
  destruct s as [|b s'].
  - exists EmptyString, a. split; [reflexivity|].
    intros ->. discriminate.
  - destruct (IH Hs) as [u [c [E Hc]]]; [discriminate|].
    exists (String a u), c. split; [|exact Hc].
    simpl. now rewrite <- E.
Qed.

Lemma length_substring (n m : nat) (s : string) :
  (n + m <= String.length s)%nat -> String.length (String.substring n m s) = m.
Proof.
  revert n m. induction s as [|c s IH]; intros [|n] [|m]; simpl; intros H;
    try reflexivity; try lia.
  - now rewrite (IH 0%nat m) by lia.
  - apply IH. lia.
  - apply IH. lia.
Qed.

Lemma erase_size (str str' : string) (i : Z) :
  0 <= i < StdString.size str ->
  StdString.erase str i 1 = Returns str' ->
  StdString.size str' = StdString.size str - 1.
Proof.
  unfold StdString.erase. intros Hi.
  replace (0 <=? i) with true by (symmetry; apply Z.leb_le; lia).
  replace (i <=? StdString.size str) with true by (symmetry; apply Z.leb_le; lia).
  simpl andb. cbv zeta.
  replace (Z.min 1 (StdString.size str - i)) with 1 by lia.
  intros E. inversion E; subst str'; clear E.
  unfold StdString.size in *.
  rewrite length_append, !length_substring by lia. lia.
Qed.

(** The second loop never returns the empty string: it can only empty
    the string by erasing at index 0, after which the index wraps. *)
Lemma trim_trailing_nonempty :
  forall (n : nat) (str r : string),
    String.length str = n ->
    trim_trailing (unsigned (StdString.size str - 1)) str = Returns r ->
    r <> EmptyString.
Proof.
  induction n as [|n IH]; intros str r Hlen.
  - destruct str; [|discriminate]. rewrite trim_trailing_step. discriminate.
  - rewrite trim_trailing_step.
    destruct (trailing_test _ str) as [[|]| |] eqn:T; try discriminate.
    + pose proof (trailing_test_in_range _ _ T) as Hi.
      destruct (StdString.erase str _ 1) as [str'| |] eqn:E; try discriminate.
      pose proof (erase_size _ _ _ Hi E) as Hsize.
      rewrite unsigned_pred.
      replace (StdString.size str - 1 - 1) with (StdString.size str' - 1) by lia.
      apply IH. unfold StdString.size in Hsize. lia.
    + intros R. inversion R; subst r. intros ->. discriminate.
Qed.

Lemma trim_nonempty (str r : string) : trim str = Returns r -> r <> EmptyString.
Proof.
  unfold trim. destruct (trim_leading (unsigned 0) str) as [str1| |]; try discriminate.
  now apply (trim_trailing_nonempty (String.length str1)).
Qed.

(** ** Where [trim] stays in bounds *)

Lemma blank_append (a b : string) : blank (a ++ b) = blank a && blank b.
Proof. induction a as [|c a IH]; simpl; [reflexivity|]. now rewrite IH, andb_assoc. Qed.

Lemma blank_spaces (k : nat) : blank (spaces k) = true.
Proof. induction k; simpl; auto. Qed.

Lemma blank_erased (a b : string) : blank (a ++ String space b) = blank (a ++ b).
Proof. now rewrite !blank_append. Qed.

Lemma split_at (str : string) :
  forall i : nat, (i < String.length str)%nat ->
  exists a c b, str = a ++ String c b /\ String.length a = i.
Proof.
  induction str as [|c0 str IH]; intros i Hi; simpl in Hi; [lia|].
  destruct i as [|i].
  - exists EmptyString, c0, str. split; reflexivity.
  - destruct (IH i) as [a [c [b [E Ha]]]]; [lia|].
    exists (String c0 a), c, b. simpl. split; [now rewrite <- E | now rewrite Ha].
Qed.

(** A test of either loop inside the string is false, or finds a space
    at its position. *)
Lemma test_in_range (str : string) (i : Z) :
  0 <= i < StdString.size str ->
  (leading_test i str = Returns false /\ trailing_test i str = Returns false) \/
  exists a b, str = a ++ String space b /\ StdString.size a = i /\
              leading_test i str = Returns true /\ trailing_test i str = Returns true.
Proof.
  intros Hi. destruct (split_at str (Z.to_nat i)) as [a [c [b [E Ha]]]].
  { unfold StdString.size in Hi. lia. }
  assert (StdString.size a = i) as Hsize by (unfold StdString.size; lia).
  subst str. rewrite <- Hsize.
  rewrite leading_test_middle, trailing_test_middle.
  destruct (Ascii.eqb_spec c space) as [->|Hc].
  - right. exists a, b. auto.
  - left. auto.
Qed.

Lemma unsigned_nonneg (z : Z) : 0 <= unsigned z.
Proof. unfold unsigned. apply Z.mod_pos_bound. reflexivity. Qed.

(** The first loop returns on every string, with a string that is not
    longer and that keeps every character other than a space. *)
Lemma trim_leading_returns :
  forall (n : nat) (str : string) (i : Z),
    String.length str = n -> 0 <= i ->
    exists r, trim_leading i str = Returns r /\
              blank r = blank str /\ StdString.size r <= StdString.size str.
Proof.
  induction n as [n IH] using lt_wf_ind. intros str i Hlen Hi.
  rewrite trim_leading_step.
  destruct (Z.lt_ge_cases i (StdString.size str)) as [Hin | Hout].
  - destruct (test_in_range str i) as [[T _] | [a [b [E [Ha [T _]]]]]]; [lia | |]; rewrite T.
    + exists str. split; [reflexivity | split; [reflexivity | lia]].
    + subst str. rewrite <- Ha, erase_middle.
      destruct (IH (String.length (a ++ b))
                  ltac:(subst n; rewrite !length_append; simpl; lia)
                  (a ++ b) (unsigned (StdString.size a + 1)) eq_refl
                  (unsigned_nonneg _)) as [r [R [Hb Hs]]].
      exists r. split; [exact R|]. split.
      * now rewrite blank_erased.
      * rewrite size_append, size_String in *. lia.
  - rewrite leading_test_past by lia.
    exists str. split; [reflexivity | split; [reflexivity | lia]].
Qed.

(** The second loop returns on every string that holds a character other
    than a space. *)
Lemma trim_trailing_returns :
  forall (n : nat) (str : string),
    String.length str = n -> blank str = false -> StdString.size str <= 2 ^ 32 ->
    exists r, trim_trailing (unsigned (StdString.size str - 1)) str = Returns r.
Proof.
  induction n as [n IH] using lt_wf_ind. intros str Hlen Hblank Hsize.
  assert (1 <= StdString.size str) as Hpos.
  { destruct str; [discriminate|]. rewrite size_String. pose proof (size_nonneg str). lia. }
  rewrite trim_trailing_step, unsigned_small by lia.
  destruct (test_in_range str (StdString.size str - 1)) as [[_ T] | [a [b [E [Ha [_ T]]]]]];
    [lia | |]; rewrite T.
  - now exists str.
  - subst str. rewrite <- Ha, erase_middle.
    rewrite blank_erased in Hblank.
    rewrite size_append, size_String in Ha, Hsize.
    replace (StdString.size a - 1) with (StdString.size (a ++ b) - 1)
      by (rewrite size_append; lia).
    apply (IH (String.length (a ++ b))); try reflexivity; try assumption.
    + subst n. rewrite !length_append. simpl. lia.
    + rewrite size_append. lia.
Qed.

(** [trim] returns on every string that holds a character other than a
    space. *)
Lemma trim_returns_on_nonblank (str : string) :
  blank str = false -> StdString.size str <= 2 ^ 32 ->
  exists r, trim str = Returns r.
Proof.
  intros Hblank Hsize. unfold trim.
  destruct (trim_leading_returns _ str (unsigned 0) eq_refl (unsigned_nonneg 0))
    as [str1 [L [Hb Hs]]].
  rewrite L.
  apply (trim_trailing_returns (String.length str1)); [reflexivity | congruence | lia].
Qed.

(** ** C1 and C3: what [trim] does to padded and to blank strings *)

(** C1.  [trim] does not remove all leading spaces.  For a string of [k]
    spaces, a space-free [s] of two characters or more and [k] spaces
    again, it returns [s] behind the [k / 2] leading spaces that the first
    loop stepped over; the trailing spaces are all removed.  The result is
    [s] for [k <= 1] only. *)
Theorem trim_padded (k : nat) (s : string) :
  space_free s = true ->
  (2 <= String.length s)%nat ->
  Z.of_nat (2 * k + String.length s) <= 2 ^ 32 ->
  trim (spaces k ++ s ++ spaces k) = Returns (spaces (k / 2) ++ s).
Proof.
  intros Hfree Hlen Hsize.
  destruct (space_free_last s Hfree) as [u [c [Es Hc]]].
  { intros ->. simpl in Hlen. lia. }
  destruct s as [|c1 [|c2 t]]; simpl in Hlen; try lia.
  simpl in Hfree.
  apply andb_true_iff in Hfree as [H1 Hfree].
  apply andb_true_iff in Hfree as [H2 _].
  apply negb_true_iff, Ascii.eqb_neq in H1, H2.
  unfold trim. change (unsigned 0) with (Z.of_nat 0).
  change ((String c1 (String c2 t)) ++ spaces k)
    with (String c1 (String c2 (t ++ spaces k))).
  rewrite (trim_leading_run c1 c2 (t ++ spaces k) H1 H2 k k 0%nat) by lia.
  rewrite Nat.add_0_r.
  change (String c1 (String c2 (t ++ spaces k)))
    with ((String c1 (String c2 t)) ++ spaces k).
  rewrite Es, <- !append_assoc.
  rewrite trim_trailing_run; [reflexivity | exact Hc |].
  rewrite (append_assoc (spaces (k / 2))), <- Es.
  rewrite !size_append, !size_spaces. unfold StdString.size. simpl String.length.
  assert (k / 2 <= k)%nat by (apply Nat.Div0.div_le_upper_bound; lia).
  cbn [String.length] in Hsize. lia.
Qed.

Lemma trim_padded_witness :
  space_free "ab" = true /\ (2 <= String.length "ab")%nat /\
  trim "  ab  " = Returns " ab".
Proof.
  split; [reflexivity|]. split; [simpl; lia|].
  apply (trim_padded 2 "ab"); [reflexivity | simpl; lia | vm_compute; discriminate].
Defined.

(** On a string of spaces the second loop erases what the first loop
    left, down to the empty string; its index then wraps from 0 to
    4294967295 (it starts there when the string is empty already), and
    [str[i]] is evaluated once more. *)
Lemma trim_spaces_undefined (k : nat) :
  Z.of_nat k < 2 ^ 32 -> trim (spaces k) = Undefined.
Proof.
  intros Hk. unfold trim. change (unsigned 0) with (Z.of_nat 0).
  destruct (trim_leading_blank k k 0%nat) as [m [Hm E]]; [lia | lia |].
  rewrite E. apply trim_trailing_blank. lia.
Qed.

Lemma blank_is_spaces (str : string) :
  blank str = true -> str = spaces (String.length str).
Proof.
  induction str as [|c str IH]; simpl; [reflexivity|].
  intros H. apply andb_true_iff in H as [Hc Hstr].
  apply eqb_space in Hc. subst c. now rewrite <- IH.
Qed.

(** C3.  [trim] reads out of bounds on the blank strings, the empty one
    included, and on no other string: the read [str[i]] of the second loop
    with [i = 4294967295], past the end of the string that the loops have
    emptied or that was empty from the start. *)
Theorem trim_out_of_bounds_iff_blank (str : string) :
  StdString.size str < 2 ^ 32 ->
  (trim str = Undefined <-> blank str = true).
Proof.
  intros Hsize. split.
  - intros Hundef. destruct (blank str) eqn:Hblank; [reflexivity|].
    destruct (trim_returns_on_nonblank str Hblank) as [r Hr]; [lia|].
    congruence.
  - intros Hblank. rewrite (blank_is_spaces str Hblank).
    apply trim_spaces_undefined. exact Hsize.
Qed.

Lemma trim_out_of_bounds_iff_blank_witness :
  StdString.size EmptyString < 2 ^ 32 /\ trim EmptyString = Undefined.
Proof.
  split; [reflexivity|].
  apply (trim_out_of_bounds_iff_blank EmptyString); reflexivity.
Defined.

(** ** The map *)

Section MapFacts.

Import StdMap.

Lemma compare_refl (k : string) : String.compare k k = Eq.
Proof. now apply String_as_OT.cmp_eq. Qed.

Lemma compare_Gt_lt (a b : string) : String.compare a b = Gt -> key_lt b a.
Proof.
  unfold key_lt. intros H. rewrite String.compare_antisym, H. reflexivity.
Qed.

Lemma key_lt_trans (a b c : string) : key_lt a b -> key_lt b c -> key_lt a c.
Proof.
  unfold key_lt. intros H1 H2.
  apply String_as_OT.cmp_lt in H1, H2. apply String_as_OT.cmp_lt.
  eapply String_as_OT.lt_trans; eassumption.
Qed.

Lemma find_insert (k v : string) (m : t) :
  find k m = None -> find k (insert k v m) = Some v.
Proof.
  induction m as [|[k' v'] m IH]; simpl.
  - now rewrite String.eqb_refl.
  - destruct (String.eqb_spec k' k) as [->|Hne]; [discriminate|]. intros Hm.
    destruct (String.compare k k') eqn:C; simpl.
    + apply String_as_OT.cmp_eq in C. congruence.
    + now rewrite String.eqb_refl.
    + destruct (String.eqb_spec k' k); [congruence | auto].
Qed.

Lemma find_insert_other (k k0 v : string) (m : t) :
  k0 <> k -> find k0 (insert k v m) = find k0 m.
Proof.
  intros Hne. induction m as [|[k' v'] m IH]; simpl.
  - destruct (String.eqb_spec k k0); congruence.
  - destruct (String.compare k k') eqn:C; simpl.
    + reflexivity.
    + destruct (String.eqb_spec k k0); congruence.
    + now rewrite IH.
Qed.

Lemma find_assign (k v v0 : string) (m : t) :
  find k m = Some v0 -> find k (assign k v m) = Some v.
Proof.
  induction m as [|[k' v'] m IH]; simpl; [discriminate|].
  destruct (String.eqb_spec k' k) as [->|Hne]; simpl.
  - now rewrite String.eqb_refl.
  - destruct (String.eqb_spec k' k); [congruence | auto].
Qed.

Lemma find_assign_other (k k0 v : string) (m : t) :
  k0 <> k -> find k0 (assign k v m) = find k0 m.
Proof.
  intros Hne. induction m as [|[k' v'] m IH]; simpl; [reflexivity|].
  destruct (String.eqb_spec k' k) as [->|Hk]; simpl.
  - destruct (String.eqb_spec k k0); congruence.
  - now rewrite IH.
Qed.

Lemma keys_assign (k v : string) (m : t) : keys (assign k v m) = keys m.
Proof.
  induction m as [|[k' v'] m IH]; simpl; [reflexivity|].
  destruct (String.eqb k' k); simpl; [reflexivity|].
  now f_equal.
Qed.

Lemma keys_insert_In (k v x : string) (m : t) :
  In x (keys (insert k v m)) -> x = k \/ In x (keys m).
Proof.
  induction m as [|[k' v'] m IH]; simpl.
  - intuition.
  - destruct (String.compare k k'); simpl; intuition.
Qed.

(** Every operation of the map keeps the keys in ascending order. *)
Lemma ordered_empty : ordered empty.
Proof. constructor. Qed.

Lemma ordered_insert (k v : string) (m : t) : ordered m -> ordered (insert k v m).
Proof.
  unfold ordered. induction m as [|[k' v'] m IH]; simpl; intros Hm.
  - repeat constructor.
  - inversion Hm as [|? ? Hm' Hall]; subst.
    destruct (String.compare k k') eqn:C; simpl.
    + exact Hm.
    + constructor; [exact Hm|]. constructor; [exact C|].
      eapply Forall_impl; [|exact Hall]. intros x. now apply key_lt_trans.
    + constructor; [now apply IH|].
      apply Forall_forall. intros x Hx.
      apply keys_insert_In in Hx as [->|Hx].
      * now apply compare_Gt_lt.
      * rewrite Forall_forall in Hall. now apply Hall.
Qed.

Lemma ordered_assign (k v : string) (m : t) : ordered m -> ordered (assign k v m).
Proof. unfold ordered. now rewrite keys_assign. Qed.

End MapFacts.

(** ** C7 and C4: registration *)

(** C7.  Registering a name that the store holds already throws the
    "already exists" exception, whatever the default given, and leaves the
    object and the world as they were. *)
Theorem addParameter_duplicate (s : state) (name defaultValue value : string) :
  StdMap.find name (nameValueMap (self s)) = Some value ->
  addParameter name defaultValue s = (Throws (already_exists name), s).
Proof.
  intros Hfound. unfold addParameter, bind, gets, throw. now rewrite Hfound.
Qed.

Lemma addParameter_duplicate_witness :
  StdMap.find "x" [("x", "1")] = Some "1" /\
  addParameter "x" "2" {| self := {| nameValueMap := [("x", "1")]; commentString := "#" |};
                          world := empty_world |} =
  (Throws (already_exists "x"),
   {| self := {| nameValueMap := [("x", "1")]; commentString := "#" |};
      world := empty_world |}).
Proof.
  split; [reflexivity|].
  apply (addParameter_duplicate _ "x" "2" "1"). reflexivity.
Defined.

(** A registration that succeeds stores the default, or the marker
    [NO_DEFAULT_VALUE_STRING] for the empty default. *)
Lemma addParameter_new (s : state) (name defaultValue : string) :
  StdMap.find name (nameValueMap (self s)) = None ->
  addParameter name defaultValue s =
  (Returns tt,
   set_nameValueMap
     (StdMap.insert name
        (if String.eqb defaultValue EmptyString then NO_DEFAULT_VALUE_STRING else defaultValue)
        (nameValueMap (self s))) s).
Proof.
  intros Hnew. unfold addParameter, bind, gets, modify. rewrite Hnew.
  now destruct (String.eqb defaultValue EmptyString).
Qed.

Lemma getParameterValue_found (s : state) (name value : string) :
  StdMap.find name (nameValueMap (self s)) = Some value ->
  getParameterValue name s =
  (if String.eqb value NO_DEFAULT_VALUE_STRING then Throws (no_value name) else Returns value, s).
Proof.
  intros Hfound. unfold getParameterValue, bind, gets, throw, ret. rewrite Hfound.
  now destruct (String.eqb value NO_DEFAULT_VALUE_STRING).
Qed.

(** C4, as the code has it.  After the registration of a new name,
    [getParameterValue] returns the default when it is neither empty nor
    the text of [NO_DEFAULT_VALUE_STRING], and throws the "no value"
    exception when it is either. *)
Theorem register_then_get (s : state) (name defaultValue : string) :
  StdMap.find name (nameValueMap (self s)) = None ->
  exists s',
    addParameter name defaultValue s = (Returns tt, s') /\
    (defaultValue <> EmptyString -> defaultValue <> NO_DEFAULT_VALUE_STRING ->
     getParameterValue name s' = (Returns defaultValue, s')) /\
    (defaultValue = EmptyString \/ defaultValue = NO_DEFAULT_VALUE_STRING ->
     getParameterValue name s' = (Throws (no_value name), s')).
Proof.
  intros Hnew. eexists. split; [now apply addParameter_new|].
  set (s' := set_nameValueMap _ s).
  assert (StdMap.find name (nameValueMap (self s')) =
          Some (if String.eqb defaultValue EmptyString
                then NO_DEFAULT_VALUE_STRING else defaultValue)) as Hfound
    by (now apply find_insert).
  rewrite (getParameterValue_found _ _ _ Hfound).
  split.
  - intros Hne Hmark.
    apply String.eqb_neq in Hne, Hmark. now rewrite Hne, Hmark.
  - intros [-> | ->]; reflexivity.
Qed.

Lemma register_then_get_witness :
  StdMap.find "x" (nameValueMap (self (fresh empty_world))) = None /\
  exists s',
    addParameter "x" "5" (fresh empty_world) = (Returns tt, s') /\
    ("5" <> EmptyString -> "5" <> NO_DEFAULT_VALUE_STRING ->
     getParameterValue "x" s' = (Returns "5", s')) /\
    ("5" = EmptyString \/ "5" = NO_DEFAULT_VALUE_STRING ->
     getParameterValue "x" s' = (Throws (no_value "x"), s')).
Proof.
  split; [reflexivity|].
  apply (register_then_get (fresh empty_world) "x" "5"). reflexivity.
Defined.

(** C4 as the specification states it fails for the default ["_#N/A#_"]: it is
    not empty, and the value read back is not it. *)
Lemma register_then_get_counterexample :
  NO_DEFAULT_VALUE_STRING <> EmptyString /\
  fst ((addParameter "x" NO_DEFAULT_VALUE_STRING ;; getParameterValue "x")
         (fresh empty_world)) = Throws (no_value "x").
Proof. split; [discriminate | reflexivity]. Qed.

(** ** States a program can reach *)

Section Preservation.

Variable P : state -> Prop.

Lemma preserves_ret {A} (a : A) : preserves P (ret a).
Proof. intros s o s' HP E. inversion E. now subst. Qed.

Lemma preserves_throw {A} (e : exception) : preserves P (@throw A e).
Proof. intros s o s' HP E. inversion E. now subst. Qed.

Lemma preserves_lift {A} (x : outcome A) : preserves P (lift x).
Proof. intros s o s' HP E. inversion E. now subst. Qed.

Lemma preserves_gets {A} (f : state -> A) : preserves P (gets f).
Proof. intros s o s' HP E. inversion E. now subst. Qed.

Lemma preserves_modify (f : state -> state) :
  (forall s, P s -> P (f s)) -> preserves P (modify f).
Proof. intros Hf s o s' HP E. inversion E. subst. now apply Hf. Qed.

Lemma preserves_bind {A B} (m : M A) (k : A -> M B) :
  preserves P m -> (forall a, preserves P (k a)) -> preserves P (bind m k).
Proof.
  intros Hm Hk s o s' HP. unfold bind.
  destruct (m s) as [[a|e|] s1] eqn:E; intros R.
  - eapply Hk; [|exact R]. eapply Hm; eassumption.
  - inversion R; subst. eapply Hm; eassumption.
  - inversion R; subst. eapply Hm; eassumption.
Qed.

End Preservation.

Create HintDb preserve.
#[local] Hint Resolve preserves_ret preserves_throw preserves_lift preserves_gets : preserve.

Lemma parse_line_ordered filename lineCount line :
  preserves ordered_state (parse_line filename lineCount line).
Proof.
  unfold parse_line.
  apply preserves_bind; [auto with preserve|]. intros comment.
  apply preserves_bind; [auto with preserve|]. intros [[name value]|]; [|auto with preserve].
  apply preserves_bind; [auto with preserve|]. intros [found|].
  - apply preserves_modify. intros s Hs. now apply ordered_assign.
  - apply preserves_modify. intros s Hs. exact Hs.
Qed.

Lemma read_lines_ordered filename lines :
  forall lineCount, preserves ordered_state (read_lines filename lineCount lines).
Proof.
  induction lines as [|line rest IH]; intros lineCount; simpl.
  - auto with preserve.
  - apply preserves_bind; [apply parse_line_ordered | intros _; apply IH].
Qed.

Lemma method_ordered (A : Type) (m : M A) : method A m -> preserves ordered_state m.
Proof.
  destruct 1.
  - unfold addParameter.
    apply preserves_bind; [auto with preserve|]. intros [found|]; [auto with preserve|].
    destruct (String.eqb defaultValue EmptyString);
      apply preserves_modify; intros s Hs; now apply ordered_insert.
  - apply preserves_modify. intros s Hs. exact Hs.
  - unfold readParameters.
    apply preserves_bind; [auto with preserve|]. intros [content|]; [|auto with preserve].
    apply read_lines_ordered.
  - unfold writeParameterFile.
    apply preserves_bind; [auto with preserve|]. intros [|]; [|auto with preserve].
    apply preserves_bind; [auto with preserve|]. intros this.
    apply preserves_modify. intros s Hs. exact Hs.
  - unfold writeCurrentParameters.
    apply preserves_bind; auto with preserve.
  - unfold getParameterValue.
    apply preserves_bind; [auto with preserve|]. intros [value|]; [|auto with preserve].
    destruct (String.eqb value NO_DEFAULT_VALUE_STRING); auto with preserve.
Qed.

(** The map of an object a program can reach has its keys in ascending
    order. *)
Lemma reachable_ordered (s : state) : reachable s -> ordered_state s.
Proof.
  induction 1 as [w | A m s s' o Hs IH Hm E _ | s w Hs IH].
  - apply ordered_empty.
  - eapply method_ordered; eassumption.
  - exact IH.
Qed.

(** ** C8 and C6: what the two writers write *)

Ltac normalise_append :=
  repeat (progress (rewrite ?append_assoc; cbn [append])).

Lemma write_entries_join (it : StdMap.t) :
  forall outFile,
    write_entries outFile it = outFile ++ join (map file_line (filter holds_value it)).
Proof.
  induction it as [|[first second] next IH]; intros outFile;
    cbn [write_entries filter].
  - now rewrite append_empty_r.
  - rewrite !IH.
    change (negb (String.eqb second NO_DEFAULT_VALUE_STRING))
      with (holds_value (first, second)).
    destruct (holds_value (first, second)); cbn [map join]; [|reflexivity].
    unfold file_line at 2. cbn [fst snd]. now normalise_append.
Qed.

Lemma write_current_join (it : StdMap.t) :
  forall stream, write_current stream it = stream ++ join (map dump_line it).
Proof.
  induction it as [|[first second] next IH]; intros stream;
    cbn [write_current map join].
  - now rewrite append_empty_r.
  - rewrite !IH.
    change (negb (String.eqb second NO_DEFAULT_VALUE_STRING))
      with (holds_value (first, second)).
    unfold dump_line at 3. cbn [fst snd].
    destruct (holds_value (first, second)); now normalise_append.
Qed.

Lemma filter_keys_sorted (f : string * string -> bool) (m : StdMap.t) :
  StdMap.ordered m -> StronglySorted StdMap.key_lt (StdMap.keys (filter f m)).
Proof.
  unfold StdMap.ordered, StdMap.keys.
  induction m as [|entry m IH]; simpl; intros Hm; [constructor|].
  inversion Hm as [|? ? Hm' Hall]; subst.
  destruct (f entry); simpl; [|now apply IH].
  constructor; [now apply IH|].
  rewrite Forall_forall in *. intros x Hx. apply Hall.
  apply in_map_iff in Hx as [e [<- He]]. apply in_map.
  now apply filter_In in He as [He _].
Qed.

(** The order of the keys is the lexicographic order of their character
    codes. *)
Lemma key_lt_lexicographic (a b : string) : StdMap.key_lt a b <-> String_as_OT.lt a b.
Proof. apply String_as_OT.cmp_lt. Qed.

Lemma two_defaults_reachable : reachable two_defaults.
Proof.
  apply (reachable_call unit (addParameter "c" "")
           (snd ((addParameter "b" "2" ;; addParameter "a" "1") (fresh empty_world)))
           two_defaults (Returns tt));
    [ | apply method_addParameter | reflexivity | discriminate ].
  apply (reachable_call unit (addParameter "a" "1")
           (snd (addParameter "b" "2" (fresh empty_world))) _ (Returns tt));
    [ | apply method_addParameter | reflexivity | discriminate ].
  apply (reachable_call unit (addParameter "b" "2") (fresh empty_world) _ (Returns tt));
    [ | apply method_addParameter | reflexivity | discriminate ].
  apply reachable_new.
Defined.

Lemma dump_line_no_value (name value : string) :
  dump_line (name, value) = name ++ " <no value set>" ++ endl <->
  value = NO_DEFAULT_VALUE_STRING.
Proof.
  unfold dump_line, holds_value. simpl fst. simpl snd.
  destruct (String.eqb_spec value NO_DEFAULT_VALUE_STRING) as [->|Hne]; simpl.
  - tauto.
  - split; [|contradiction]. intros E. exfalso.
    induction name as [|c name IH]; simpl in E; [discriminate|].
    inversion E. auto.
Qed.

(** C6 as the specification states it fails for a parameter registered
    with the default ["_#N/A#_"]: it was given a default, and its line in
    the dump says that no value is set. *)
Lemma writeCurrentParameters_counterexample :
  NO_DEFAULT_VALUE_STRING <> EmptyString /\
  fst ((addParameter "x" NO_DEFAULT_VALUE_STRING ;; writeCurrentParameters EmptyString)
         (fresh empty_world)) =
  Returns ("Current parameters:" ++ endl ++ "x <no value set>" ++ endl).
Proof. split; [discriminate | reflexivity]. Qed.

(** ** C10, C9 and C2: reading a file *)

Lemma getlines_single (line : string) :
  newline_free line = true -> getlines (line ++ endl) = [line].
Proof.
  induction line as [|c line IH]; simpl; intros H; [reflexivity|].
  apply andb_true_iff in H as [Hc Hline].
  apply negb_true_iff in Hc. rewrite Hc, (IH Hline). reflexivity.
Qed.

(** The loop body on a line that scans to a name and a value. *)
Lemma parse_line_assigns (s : state) filename lineCount line name value old :
  scan_line (commentString (self s)) filename lineCount line = Returns (Some (name, value)) ->
  StdMap.find name (nameValueMap (self s)) = Some old ->
  parse_line filename lineCount line s =
  (Returns tt, set_nameValueMap (StdMap.assign name value (nameValueMap (self s))) s).
Proof.
  intros Hscan Hfound. unfold parse_line, bind, gets, lift, modify.
  now rewrite Hscan, Hfound.
Qed.

Lemma parse_line_warns (s : state) filename lineCount line name value :
  scan_line (commentString (self s)) filename lineCount line = Returns (Some (name, value)) ->
  StdMap.find name (nameValueMap (self s)) = None ->
  parse_line filename lineCount line s =
  (Returns tt, put_cout (unknown_identifier_warning name) s).
Proof.
  intros Hscan Hfound. unfold parse_line, bind, gets, lift, modify.
  now rewrite Hscan, Hfound.
Qed.

Lemma parse_line_skips (s : state) filename lineCount line :
  scan_line (commentString (self s)) filename lineCount line = Returns None ->
  parse_line filename lineCount line s = (Returns tt, s).
Proof.
  intros Hscan. unfold parse_line, bind, gets, lift, ret. now rewrite Hscan.
Qed.

Lemma parse_line_fails (s : state) filename lineCount line :
  forall o, o <> Returns tt ->
  (match scan_line (commentString (self s)) filename lineCount line with
   | Returns _ => Returns tt
   | Throws e => Throws e
   | Undefined => Undefined
   end) = o ->
  parse_line filename lineCount line s = (o, s).
Proof.
  intros o Hne. unfold parse_line, bind, gets, lift.
  destruct (scan_line _ filename lineCount line) as [scanned|e|]; intros <-;
    [congruence | reflexivity | reflexivity].
Qed.

Lemma readParameters_single (s : state) (filename line : string) :
  newline_free line = true ->
  files (world s) filename = Some (line ++ endl) ->
  readParameters filename s = parse_line filename 1 line s.
Proof.
  intros Hline Hfile. unfold readParameters, bind at 1, gets at 1.
  rewrite Hfile, (getlines_single _ Hline). simpl. unfold bind.
  now destruct (parse_line filename 1 line s) as [[[]|e|] s'].
Qed.

(** C10.  With the comment string ["#"] and ["x"] registered, reading a
    file that consists of the line [x 5 # comment] returns, after which
    [getParameterValue "x"] returns ["5"]. *)
Theorem read_line_with_comment (s : state) (filename old : string) :
  commentString (self s) = DEFAULT_COMMENT_STRING ->
  StdMap.find "x" (nameValueMap (self s)) = Some old ->
  files (world s) filename = Some ("x 5 # comment" ++ endl) ->
  exists s',
    readParameters filename s = (Returns tt, s') /\
    getParameterValue "x" s' = (Returns "5", s').
Proof.
  intros Hcomment Hfound Hfile.
  rewrite (readParameters_single s filename "x 5 # comment" eq_refl Hfile).
  rewrite (parse_line_assigns s filename 1 _ "x" "5" old);
    [ | rewrite Hcomment; reflexivity | exact Hfound ].
  eexists. split; [reflexivity|].
  apply (getParameterValue_found _ "x" "5").
  apply (find_assign "x" "5" old). exact Hfound.
Qed.

Lemma read_line_with_comment_witness :
  fst ((readParameters "F" ;; getParameterValue "x") comment_example) = Returns "5".
Proof.
  destruct (read_line_with_comment comment_example "F" NO_DEFAULT_VALUE_STRING
              eq_refl eq_refl eq_refl) as [s' [Hread Hget]].
  unfold bind. rewrite Hread, Hget. reflexivity.
Defined.

(** What a line scans to does not depend on its number, which only the
    exceptions mention. *)
Lemma scan_line_any_count (comment filename line : string) (n m : Z) scanned :
  scan_line comment filename n line = Returns scanned ->
  scan_line comment filename m line = Returns scanned.
Proof.
  unfold scan_line, obind.
  destruct (StdString.substr line 0 _) as [lineToParse| |]; try discriminate.
  destruct (StdString.size lineToParse =? 0); [trivial|].
  destruct (StdString.find_char lineToParse space =? StdString.npos); [discriminate|].
  destruct (StdString.substr lineToParse 0 _) as [name0| |]; try discriminate.
  destruct (StdString.substr lineToParse _ StdString.npos) as [value0| |]; try discriminate.
  destruct (trim name0) as [name| |]; try discriminate.
  destruct (trim value0) as [value| |]; try discriminate.
  destruct (String.eqb value EmptyString); [discriminate | trivial].
Qed.

(** C2, as the code has it.  The first object registers ["a"] with the
    default ["1"] and ["b"] with none, and writes the file; a second object
    registers ["a"] with no default and ["b"] with the default ["z"], and
    reads the file.  Every call returns; the second object then gives ["1"]
    for ["a"], read from the file, and ["z"] for ["b"], its own default,
    which the file does not mention. *)
Theorem round_trip (w : World) (F : string) :
  writable w F = true ->
  let first := (addParameter "a" "1" ;; addParameter "b" "" ;; writeParameterFile F) (fresh w) in
  let second := (addParameter "a" "" ;; addParameter "b" "z" ;; readParameters F)
                  (fresh (world (snd first))) in
  fst first = Returns tt /\
  fst second = Returns tt /\
  fst (getParameterValue "a" (snd second)) = Returns "1" /\
  fst (getParameterValue "b" (snd second)) = Returns "z".
Proof.
  intros Hopen.
  unfold writeParameterFile, readParameters, bind, gets, modify. cbn.
  rewrite Hopen. cbn. rewrite String.eqb_refl. cbn.
  repeat split; reflexivity.
Qed.

Lemma round_trip_witness :
  writable empty_world "F" = true /\
  fst (getParameterValue "b"
         (snd ((addParameter "a" "" ;; addParameter "b" "z" ;; readParameters "F")
                 (fresh (world (snd ((addParameter "a" "1" ;; addParameter "b" "" ;;
                                      writeParameterFile "F") (fresh empty_world)))))))) =
  Returns "z".
Proof.
  split; [reflexivity|].
  apply (round_trip empty_world "F" eq_refl).
Defined.

(** C2 as the specification states it fails: ["b"] has the default ["z"]
    in the second object, so reading its value raises nothing. *)
Lemma round_trip_counterexample :
  let first := (addParameter "a" "1" ;; addParameter "b" "" ;; writeParameterFile "F")
                 (fresh empty_world) in
  let second := (addParameter "a" "" ;; addParameter "b" "z" ;; readParameters "F")
                  (fresh (world (snd first))) in
  fst (getParameterValue "b" (snd second)) = Returns "z" /\
  fst (getParameterValue "b" (snd second)) <> Throws (no_value "b").
Proof. split; [reflexivity | discriminate]. Qed.

(** ** C5: the exceptions of [readParameters] *)

Lemma at_no_throw (str : string) (i : Z) (e : exception) : StdString.at_ str i <> Throws e.
Proof.
  unfold StdString.at_. destruct ((0 <=? i) && (i <=? StdString.size str)).
  - destruct (String.get (Z.to_nat i) str); discriminate.
  - discriminate.
Qed.

Lemma leading_test_no_throw (str : string) (i : Z) (e : exception) :
  leading_test i str <> Throws e.
Proof.
  unfold leading_test. destruct (i <? StdString.size str); [|discriminate].
  destruct (StdString.at_ str i) as [c|e'|] eqn:A; try discriminate.
  now apply at_no_throw in A.
Qed.

Lemma trailing_test_no_throw (str : string) (i : Z) (e : exception) :
  trailing_test i str <> Throws e.
Proof.
  unfold trailing_test. destruct (0 <=? i); [|discriminate].
  destruct (StdString.at_ str i) as [c|e'|] eqn:A; try discriminate.
  now apply at_no_throw in A.
Qed.

Lemma erase_in_range (str : string) (i n : Z) :
  0 <= i <= StdString.size str -> exists str', StdString.erase str i n = Returns str'.
Proof.
  intros Hi. unfold StdString.erase.
  replace (0 <=? i) with true by (symmetry; apply Z.leb_le; lia).
  replace (i <=? StdString.size str) with true by (symmetry; apply Z.leb_le; lia).
  eexists. reflexivity.
Qed.

Lemma substr_in_range (str : string) (i n : Z) :
  0 <= i <= StdString.size str -> exists str', StdString.substr str i n = Returns str'.
Proof.
  intros Hi. unfold StdString.substr.
  replace (0 <=? i) with true by (symmetry; apply Z.leb_le; lia).
  replace (i <=? StdString.size str) with true by (symmetry; apply Z.leb_le; lia).
  eexists. reflexivity.
Qed.

(** [erase] is called on a position that holds a space, so it never
    throws [std::out_of_range] inside [trim]. *)
Lemma trim_leading_no_throw (e : exception) :
  forall (n : nat) (str : string) (i : Z),
    String.length str = n -> trim_leading i str <> Throws e.
Proof.
  induction n as [n IH] using lt_wf_ind. intros str i Hlen.
  rewrite trim_leading_step.
  destruct (leading_test i str) as [[|]|e'|] eqn:T; try discriminate;
    [|now apply leading_test_no_throw in T].
  pose proof (leading_test_in_range _ _ T) as Hi.
  destruct (erase_in_range str i 1) as [str' E]; [lia|]. rewrite E.
  apply (IH (String.length str')); [|reflexivity].
  pose proof (erase_shrinks _ _ _ Hi E). lia.
Qed.

Lemma trim_trailing_no_throw (e : exception) :
  forall (n : nat) (str : string) (i : Z),
    String.length str = n -> trim_trailing i str <> Throws e.
Proof.
  induction n as [n IH] using lt_wf_ind. intros str i Hlen.
  rewrite trim_trailing_step.
  destruct (trailing_test i str) as [[|]|e'|] eqn:T; try discriminate;
    [|now apply trailing_test_no_throw in T].
  pose proof (trailing_test_in_range _ _ T) as Hi.
  destruct (erase_in_range str i 1) as [str' E]; [lia|]. rewrite E.
  apply (IH (String.length str')); [|reflexivity].
  pose proof (erase_shrinks _ _ _ Hi E). lia.
Qed.

Lemma trim_no_throw (str : string) (e : exception) : trim str <> Throws e.
Proof.
  unfold trim.
  destruct (trim_leading (unsigned 0) str) as [str1|e'|] eqn:L; try discriminate.
  - now apply (trim_trailing_no_throw e (String.length str1)).
  - now apply (trim_leading_no_throw e' _ str (unsigned 0) eq_refl) in L.
Qed.

Lemma substring_char_in_range (k : nat) (s : string) (c : ascii) :
  String.substring k 1 s = String c EmptyString -> (k < String.length s)%nat.
Proof.
  revert k. induction s as [|a s IH]; intros [|k]; simpl; intros H;
    try discriminate; try lia.
  apply IH in H. lia.
Qed.

(** A position that [find] returns lies inside the string. *)
Lemma find_char_in_range (str : string) (c : ascii) :
  StdString.find_char str c <> StdString.npos ->
  0 <= StdString.find_char str c < StdString.size str.
Proof.
  unfold StdString.find_char, StdString.find, StdString.size.
  destruct (String.index 0 (String c EmptyString) str) as [k|] eqn:E; [|congruence].
  intros _. apply String.index_correct1 in E. simpl String.length in E.
  apply substring_char_in_range in E. lia.
Qed.

(** The only exception the first half of the loop body throws is the one
    for a line without a space: [substr] is called within range, [trim]
    does not throw, and [trim] does not return the empty string, so the
    test [value == ""] that guards the second [throw] never holds. *)
Lemma scan_line_throws (comment filename line : string) (lineCount : Z) (e : exception) :
  scan_line comment filename lineCount line = Throws e ->
  e = parameter_without_value lineCount filename.
Proof.
  unfold scan_line, obind.
  destruct (substr_in_range line 0 (StdString.find line comment)) as [lineToParse E0].
  { pose proof (size_nonneg line). lia. }
  rewrite E0.
  destruct (StdString.size lineToParse =? 0); [discriminate|].
  destruct (Z.eqb_spec (StdString.find_char lineToParse space) StdString.npos) as [|Hfound].
  { intros H. now inversion H. }
  pose proof (find_char_in_range _ _ Hfound) as Hrange.
  destruct (substr_in_range lineToParse 0 (StdString.find_char lineToParse space))
    as [name0 E1]; [lia|].
  destruct (substr_in_range lineToParse (StdString.find_char lineToParse space + 1)
              StdString.npos) as [value0 E2]; [lia|].
  rewrite E1, E2.
  destruct (trim name0) as [name|e'|] eqn:En; try discriminate;
    [|now apply trim_no_throw in En].
  destruct (trim value0) as [value|e'|] eqn:Ev; try discriminate;
    [|now apply trim_no_throw in Ev].
  apply trim_nonempty in Ev. apply String.eqb_neq in Ev. rewrite Ev. discriminate.
Qed.

Lemma parse_line_throws (s s' : state) (filename line : string) (lineCount : Z) (e : exception) :
  parse_line filename lineCount line s = (Throws e, s') ->
  e = parameter_without_value lineCount filename /\ s' = s.
Proof.
  unfold parse_line, bind, gets, lift.
  destruct (scan_line _ filename lineCount line) as [[[name value]|]|e'|] eqn:Hscan.
  - destruct (StdMap.find name _); discriminate.
  - discriminate.
  - intros H. inversion H; subst. split; [|reflexivity].
    now apply scan_line_throws in Hscan.
  - discriminate.
Qed.

Lemma read_lines_throws (filename : string) (lines : list string) :
  forall (lineCount : Z) (s s' : state) (e : exception),
    read_lines filename lineCount lines s = (Throws e, s') ->
    exists n, e = parameter_without_value n filename.
Proof.
  induction lines as [|line rest IH]; intros lineCount s s' e; simpl.
  - discriminate.
  - unfold bind at 1.
    destruct (parse_line filename lineCount line s) as [[[]|e'|] s1] eqn:Hline.
    + apply IH.
    + intros H. inversion H; subst.
      apply parse_line_throws in Hline as [-> _]. now exists lineCount.
    + discriminate.
Qed.

Lemma exceptions_differ (n m : Z) (f g : string) :
  parameter_without_value n f <> identifier_without_value m g.
Proof. unfold parameter_without_value, identifier_without_value. cbn. discriminate. Qed.

Lemma cannot_read_differs (f g : string) (m : Z) :
  cannot_read f <> identifier_without_value m g.
Proof. unfold cannot_read, identifier_without_value. cbn. discriminate. Qed.

(** C5.  [readParameters] never throws the exception for a value that
    trims to empty, on any file and from any state: such a value makes
    [trim] read out of bounds before the test of line 99 is reached. *)
Theorem readParameters_never_reports_empty_value
  (s : state) (filename reported : string) (lineCount : Z) :
  fst (readParameters filename s) <> Throws (identifier_without_value lineCount reported).
Proof.
  unfold readParameters, bind, gets, throw.
  destruct (files (world s) filename) as [content|]; simpl.
  - destruct (read_lines filename 1 (getlines content) s) as [[[]|e|] s'] eqn:R;
      simpl; try discriminate.
    apply read_lines_throws in R as [n ->].
    intros H. apply (exceptions_differ n lineCount filename reported). congruence.
  - intros H. apply (cannot_read_differs filename reported lineCount). congruence.
Qed.

(** ** The line number, and what a failed call leaves behind *)

Lemma advance_small (k : nat) :
  forall lineCount,
    0 <= lineCount -> lineCount + Z.of_nat k < 2 ^ 32 ->
    advance lineCount k = lineCount + Z.of_nat k.
Proof.
  induction k as [|k IH]; intros lineCount H0 Hk; simpl advance; [lia|].
  rewrite unsigned_small by lia. rewrite IH by lia. lia.
Qed.

(** The loop goes through the lines that return and stops at the first
    line that does not, with the state the lines before it left. *)
Lemma read_lines_stops (filename : string) (before : list string) :
  forall (lineCount : Z) (s s1 s2 : state) (line : string) (after : list string) (o : outcome unit),
    read_lines filename lineCount before s = (Returns tt, s1) ->
    parse_line filename (advance lineCount (List.length before)) line s1 = (o, s2) ->
    o <> Returns tt ->
    read_lines filename lineCount (before ++ line :: after) s = (o, s2).
Proof.
  induction before as [|l before IH]; intros lineCount s s1 s2 line after o; simpl.
  - intros R. inversion R; subst. intros Hline Ho. unfold bind. rewrite Hline.
    destruct o as [[]| |]; [congruence | reflexivity | reflexivity].
  - unfold bind.
    destruct (parse_line filename lineCount l s) as [[[]|e|] s'] eqn:Hl; try discriminate.
    apply IH.
Qed.

(** A line whose content is not empty and holds no space makes the loop
    body throw, with the line number and the file name in the message. *)
Lemma scan_line_no_space (comment filename line lineToParse : string) (lineCount : Z) :
  StdString.substr line 0 (StdString.find line comment) = Returns lineToParse ->
  StdString.size lineToParse <> 0 ->
  StdString.find_char lineToParse space = StdString.npos ->
  scan_line comment filename lineCount line = Throws (parameter_without_value lineCount filename).
Proof.
  intros Hcontent Hsize Hspace. unfold scan_line, obind. rewrite Hcontent.
  apply Z.eqb_neq in Hsize. rewrite Hsize, Hspace. reflexivity.
Qed.

(** X1, the part of C5 that holds.  When the lines before it have been read
    and applied, a line without a space ends the call with the exception
    that names the line by its number in the file, counted from 1, and
    the file by its name; the lines after it play no part, and the state is
    the one the lines before it left. *)
Theorem line_without_space_aborts
  (s s1 : state) (filename line lineToParse : string) (before after : list string) :
  read_lines filename 1 before s = (Returns tt, s1) ->
  Z.of_nat (List.length before) + 1 < 2 ^ 32 ->
  StdString.substr line 0 (StdString.find line (commentString (self s1))) = Returns lineToParse ->
  StdString.size lineToParse <> 0 ->
  StdString.find_char lineToParse space = StdString.npos ->
  read_lines filename 1 (before ++ line :: after) s =
  (Throws (parameter_without_value (Z.of_nat (List.length before) + 1) filename), s1).
Proof.
  intros Hbefore Hsmall Hcontent Hsize Hspace.
  apply (read_lines_stops filename before 1 s s1 s1 line after); [exact Hbefore | | discriminate].
  rewrite advance_small by lia.
  apply parse_line_fails; [discriminate|].
  rewrite (scan_line_no_space _ filename line lineToParse _ Hcontent Hsize Hspace).
  f_equal. f_equal. lia.
Qed.

Lemma line_without_space_aborts_witness :
  read_lines "F" 1 (["# settings"; "x 5"] ++ "y" :: ["x 6"]) abort_example =
  (Throws (parameter_without_value 3 "F"),
   set_nameValueMap [("x", "5"); ("y", "1")] abort_example).
Proof.
  apply (line_without_space_aborts abort_example
           (set_nameValueMap [("x", "5"); ("y", "1")] abort_example)
           "F" "y" "y" ["# settings"; "x 5"] ["x 6"]).
  - reflexivity.
  - simpl. lia.
  - reflexivity.
  - discriminate.
  - reflexivity.
Defined.

(** ** The parser on the inputs that C1, C3 and C5 fail on *)

(** C1 through the parser: the value of the line [p], three spaces, [ab],
    two spaces, keeps a leading space. *)
Example read_padded_value :
  fst ((addParameter "p" "" ;;
        modify (put_file "F" ("p   ab  " ++ endl)) ;;
        readParameters "F" ;;
        getParameterValue "p") (fresh empty_world)) = Returns " ab".
Proof. reflexivity. Qed.

(** The first loop also removes spaces inside the string. *)
Example trim_inner_space : trim " a b" = Returns "ab".
Proof. reflexivity. Qed.

(** C3 and C5 through the parser: a line that starts with a space has
    the empty name, and a line that ends with its first space has the
    empty value; [trim] reads out of bounds on both.  The lines before
    have been applied. *)
Example read_empty_name :
  fst ((addParameter "x" "" ;;
        modify (put_file "F" (" x 5" ++ endl)) ;;
        readParameters "F") (fresh empty_world)) = Undefined.
Proof. reflexivity. Qed.

Example read_empty_value :
  let (o, s) := (addParameter "x" "" ;; addParameter "y" "" ;;
                 modify (put_file "F" ("y 1" ++ endl ++ "x " ++ endl)) ;;
                 readParameters "F") (fresh empty_world) in
  o = Undefined /\ nameValueMap (self s) = [("x", NO_DEFAULT_VALUE_STRING); ("y", "1")].
Proof. split; reflexivity. Qed.

Example read_blank_value :
  fst ((addParameter "x" "" ;;
        modify (put_file "F" ("x    " ++ endl)) ;;
        readParameters "F") (fresh empty_world)) = Undefined.
Proof. reflexivity. Qed.

(** ** More on the loop body *)

(** A line whose raw value is blank: the loop body reads out of bounds,
    in [trim(value)] if not in [trim(name)] before. *)
Lemma scan_line_blank_value
  (comment filename line lineToParse name0 : string) (lineCount : Z) (k : nat) :
  StdString.substr line 0 (StdString.find line comment) = Returns lineToParse ->
  StdString.size lineToParse <> 0 ->
  StdString.find_char lineToParse space <> StdString.npos ->
  StdString.substr lineToParse 0 (StdString.find_char lineToParse space) = Returns name0 ->
  StdString.substr lineToParse (StdString.find_char lineToParse space + 1) StdString.npos =
    Returns (spaces k) ->
  Z.of_nat k < 2 ^ 32 ->
  scan_line comment filename lineCount line = Undefined.
Proof.
  intros Hcontent Hsize Hspace Hname Hvalue Hk. unfold scan_line, obind.
  rewrite Hcontent. apply Z.eqb_neq in Hsize, Hspace. rewrite Hsize, Hspace, Hname, Hvalue.
  destruct (trim name0) as [name|e|] eqn:En; [ | now apply trim_no_throw in En | reflexivity ].
  now rewrite trim_spaces_undefined.
Qed.

(** [readParameters] registers and removes nothing: the names of the map
    are the same after the call, however it ends. *)
Lemma readParameters_keeps_keys (filename : string) (names : list string) :
  preserves (fun s => StdMap.keys (nameValueMap (self s)) = names) (readParameters filename).
Proof.
  assert (forall lineCount line,
            preserves (fun s => StdMap.keys (nameValueMap (self s)) = names)
                      (parse_line filename lineCount line)) as Hline.
  { intros lineCount line. unfold parse_line.
    apply preserves_bind; [auto with preserve|]. intros comment.
    apply preserves_bind; [auto with preserve|].
    intros [[name value]|]; [|auto with preserve].
    apply preserves_bind; [auto with preserve|]. intros [found|].
    - apply preserves_modify. intros s Hs. simpl. now rewrite keys_assign.
    - apply preserves_modify. intros s Hs. exact Hs. }
  unfold readParameters.
  apply preserves_bind; [auto with preserve|]. intros [content|]; [|auto with preserve].
  generalize 1 as lineCount.
  induction (getlines content) as [|line rest IH]; intros lineCount; simpl.
  - auto with preserve.
  - apply preserves_bind; [apply Hline | intros _; apply IH].
Qed.

(** * Further properties *)

(** ** What [trim] keeps *)

Lemma unspaced_append (a b : string) : unspaced (a ++ b) = unspaced a ++ unspaced b.
Proof.
  induction a as [|c a IH]; simpl; [reflexivity|].
  destruct (Ascii.eqb c space); simpl; now rewrite IH.
Qed.

Lemma unspaced_erased (a b : string) : unspaced (a ++ String space b) = unspaced (a ++ b).
Proof. now rewrite !unspaced_append. Qed.

(** Either loop returns what it was given less some spaces. *)
Lemma trim_leading_keeps :
  forall (n : nat) (str r : string) (i : Z),
    String.length str = n -> trim_leading i str = Returns r ->
    unspaced r = unspaced str /\ StdString.size r <= StdString.size str /\
    (leading_test i str = Returns true -> StdString.size r < StdString.size str).
Proof.
  induction n as [n IH] using lt_wf_ind. intros str r i Hlen.
  rewrite trim_leading_step.
  destruct (leading_test i str) as [[|]| |] eqn:T; try discriminate.
  - pose proof (leading_test_in_range _ _ T) as Hi.
    destruct (test_in_range str i Hi) as [[T' _] | [a [b [E [Ha _]]]]]; [congruence|].
    subst str. rewrite <- Ha, erase_middle. intros R.
    destruct (IH (String.length (a ++ b))
                ltac:(subst n; rewrite !length_append; simpl; lia)
                (a ++ b) r _ eq_refl R) as [Hu [Hs _]].
    rewrite unspaced_erased, size_append, size_String. rewrite size_append in Hs.
    split; [exact Hu|]. split; [lia|]. intros _. lia.
  - intros R. inversion R; subst r. split; [reflexivity|]. split; [lia | discriminate].
Qed.

Lemma trim_trailing_keeps :
  forall (n : nat) (str r : string) (i : Z),
    String.length str = n -> trim_trailing i str = Returns r ->
    unspaced r = unspaced str /\ StdString.size r <= StdString.size str /\
    (trailing_test i str = Returns true -> StdString.size r < StdString.size str).
Proof.
  induction n as [n IH] using lt_wf_ind. intros str r i Hlen.
  rewrite trim_trailing_step.
  destruct (trailing_test i str) as [[|]| |] eqn:T; try discriminate.
  - pose proof (trailing_test_in_range _ _ T) as Hi.
    destruct (test_in_range str i Hi) as [[_ T'] | [a [b [E [Ha _]]]]]; [congruence|].
    subst str. rewrite <- Ha, erase_middle. intros R.
    destruct (IH (String.length (a ++ b))
                ltac:(subst n; rewrite !length_append; simpl; lia)
                (a ++ b) r _ eq_refl R) as [Hu [Hs _]].
    rewrite unspaced_erased, size_append, size_String. rewrite size_append in Hs.
    split; [exact Hu|]. split; [lia|]. intros _. lia.
  - intros R. inversion R; subst r. split; [reflexivity|]. split; [lia | discriminate].
Qed.

(** X2.  What [trim] returns is never empty and never longer than its
    argument, and apart from spaces it has the characters of the argument,
    in their order: [trim] removes spaces and nothing else. *)
Theorem trim_removes_spaces_only (str r : string) :
  trim str = Returns r ->
  unspaced r = unspaced str /\
  StdString.size r <= StdString.size str /\
  r <> EmptyString.
Proof.
  intros Htrim. split; [|split]; [| |now apply (trim_nonempty str)].
  - unfold trim in Htrim.
    destruct (trim_leading (unsigned 0) str) as [str1| |] eqn:L; try discriminate.
    destruct (trim_leading_keeps _ str str1 _ eq_refl L) as [Hu1 _].
    destruct (trim_trailing_keeps _ str1 r _ eq_refl Htrim) as [Hu2 _].
    congruence.
  - unfold trim in Htrim.
    destruct (trim_leading (unsigned 0) str) as [str1| |] eqn:L; try discriminate.
    destruct (trim_leading_keeps _ str str1 _ eq_refl L) as [_ [Hs1 _]].
    destruct (trim_trailing_keeps _ str1 r _ eq_refl Htrim) as [_ [Hs2 _]].
    lia.
Qed.

Lemma trim_removes_spaces_only_witness :
  trim " a b  " = Returns "ab" /\ unspaced "ab" = unspaced " a b  ".
Proof.
  split; [reflexivity|].
  apply (trim_removes_spaces_only " a b  " "ab"). reflexivity.
Defined.

(** ** Where [trim] changes nothing *)

Lemma snoc_decompose (s : string) :
  s <> EmptyString -> exists u c, s = u ++ String c EmptyString.
Proof.
  induction s as [|a s IH]; intros Hne; [congruence|].
  destruct s as [|b s'].
  - now exists EmptyString, a.
  - destruct IH as [u [c E]]; [discriminate|].
    exists (String a u), c. simpl. now rewrite <- E.
Qed.

Lemma last_not_space_snoc (u : string) (c : ascii) :
  last_not_space (u ++ String c EmptyString) = negb (Ascii.eqb c space).
Proof.
  induction u as [|a u IH]; [reflexivity|].
  simpl append. simpl last_not_space.
  destruct (u ++ String c EmptyString) eqn:E; [|exact IH].
  destruct u; discriminate.
Qed.

Lemma leading_test_first (c : ascii) (t : string) :
  leading_test (unsigned 0) (String c t) = Returns (Ascii.eqb c space).
Proof. apply (leading_test_middle EmptyString t c). Qed.

Lemma trailing_test_last (u : string) (c : ascii) :
  StdString.size (u ++ String c EmptyString) <= 2 ^ 32 ->
  trailing_test (unsigned (StdString.size (u ++ String c EmptyString) - 1))
                (u ++ String c EmptyString) = Returns (Ascii.eqb c space).
Proof.
  intros Hsize. rewrite size_append, size_String in *.
  change (StdString.size EmptyString) with 0 in *.
  pose proof (size_nonneg u).
  rewrite unsigned_small by lia.
  replace (StdString.size u + (1 + 0) - 1) with (StdString.size u) by lia.
  apply trailing_test_middle.
Qed.

(** A string that neither starts nor ends with a space comes back as it
    is, spaces inside it included. *)
Lemma trim_fixed (s : string) :
  trimmed s = true -> StdString.size s <= 2 ^ 32 -> trim s = Returns s.
Proof.
  unfold trimmed. intros H Hsize. apply andb_true_iff in H as [Hfirst Hlast].
  unfold trim. rewrite trim_leading_step.
  destruct s as [|c t]; [discriminate|].
  rewrite leading_test_first. simpl in Hfirst.
  apply negb_true_iff in Hfirst. rewrite Hfirst.
  destruct (snoc_decompose (String c t)) as [u [d E]]; [discriminate|].
  rewrite E in *. rewrite last_not_space_snoc in Hlast.
  apply negb_true_iff in Hlast.
  rewrite trim_trailing_step, trailing_test_last by exact Hsize.
  now rewrite Hlast.
Qed.

(** X3.  [trim] returns its argument unchanged exactly when the argument
    has a first and a last character and neither is a space; spaces inside
    such a string stay. *)
Theorem trim_identity_iff_trimmed (s : string) :
  StdString.size s <= 2 ^ 32 ->
  (trim s = Returns s <-> trimmed s = true).
Proof.
  intros Hsize. split; [|intros H; now apply trim_fixed].
  intros Htrim. pose proof (trim_nonempty s s Htrim) as Hne.
  unfold trim in Htrim.
  destruct (trim_leading (unsigned 0) s) as [str1| |] eqn:L; try discriminate.
  destruct (trim_leading_keeps _ s str1 _ eq_refl L) as [_ [Hs1 Hlt1]].
  destruct (trim_trailing_keeps _ str1 s _ eq_refl Htrim) as [_ [Hs2 Hlt2]].
  assert (str1 = s) as ->.
  { rewrite trim_leading_step in L.
    destruct (leading_test (unsigned 0) s) as [[|]| |]; try discriminate.
    - specialize (Hlt1 eq_refl). lia.
    - congruence. }
  unfold trimmed. apply andb_true_iff. split.
  - destruct s as [|c t]; [congruence|].
    rewrite leading_test_first in Hlt1. simpl.
    destruct (Ascii.eqb c space); [|reflexivity].
    specialize (Hlt1 eq_refl). lia.
  - destruct (snoc_decompose s Hne) as [u [d E]]. rewrite E in *.
    rewrite trailing_test_last in Hlt2 by exact Hsize.
    rewrite last_not_space_snoc.
    destruct (Ascii.eqb d space); [|reflexivity].
    specialize (Hlt2 eq_refl). lia.
Qed.

Lemma trim_identity_iff_trimmed_witness :
  StdString.size "a b" <= 2 ^ 32 /\ trim "a b" = Returns "a b".
Proof.
  split; [vm_compute; discriminate|].
  apply (trim_identity_iff_trimmed "a b"); [vm_compute; discriminate | reflexivity].
Defined.

(** ** No entry ever holds the empty string *)

Lemma insert_values_nonempty (k v : string) (m : StdMap.t) :
  v <> EmptyString -> values_nonempty m -> values_nonempty (StdMap.insert k v m).
Proof.
  unfold values_nonempty. intros Hv.
  induction m as [|[k' v'] m IH]; simpl; intros Hm.
  - constructor; [exact Hv | constructor].
  - inversion Hm; subst.
    destruct (String.compare k k'); [exact Hm | | ].
    + constructor; [exact Hv | exact Hm].
    + constructor; [assumption | now apply IH].
Qed.

Lemma assign_values_nonempty (k v : string) (m : StdMap.t) :
  v <> EmptyString -> values_nonempty m -> values_nonempty (StdMap.assign k v m).
Proof.
  unfold values_nonempty. intros Hv.
  induction m as [|[k' v'] m IH]; simpl; intros Hm; [constructor|].
  inversion Hm; subst.
  destruct (String.eqb k' k); constructor; auto.
Qed.

(** The value that a line scans to is what [trim] returned: not empty. *)
Lemma scan_line_value_nonempty (comment filename line name value : string) (lineCount : Z) :
  scan_line comment filename lineCount line = Returns (Some (name, value)) ->
  value <> EmptyString.
Proof.
  unfold scan_line, obind.
  destruct (StdString.substr line 0 _) as [lineToParse| |]; try discriminate.
  destruct (StdString.size lineToParse =? 0); [discriminate|].
  destruct (StdString.find_char lineToParse space =? StdString.npos); [discriminate|].
  destruct (StdString.substr lineToParse 0 _) as [name0| |]; try discriminate.
  destruct (StdString.substr lineToParse _ StdString.npos) as [value0| |]; try discriminate.
  destruct (trim name0) as [name'| |]; try discriminate.
  destruct (trim value0) as [value'| |] eqn:Ev; try discriminate.
  destruct (String.eqb value' EmptyString); [discriminate|].
  intros H. inversion H; subst. now apply (trim_nonempty value0).
Qed.

Lemma parse_line_values_nonempty filename lineCount line :
  preserves values_nonempty_state (parse_line filename lineCount line).
Proof.
  intros s o s' Hs. unfold parse_line, bind, gets, lift, modify, ret.
  destruct (scan_line _ filename lineCount line) as [[[name value]|]|e|] eqn:Hscan.
  - apply scan_line_value_nonempty in Hscan.
    destruct (StdMap.find name _); intros R; inversion R; subst.
    + now apply assign_values_nonempty.
    + exact Hs.
  - intros R. inversion R. now subst.
  - intros R. inversion R. now subst.
  - intros R. inversion R. now subst.
Qed.

Lemma method_values_nonempty (A : Type) (m : M A) :
  method A m -> preserves values_nonempty_state m.
Proof.
  destruct 1.
  - unfold addParameter.
    apply preserves_bind; [auto with preserve|]. intros [found|]; [auto with preserve|].
    destruct (String.eqb_spec defaultValue EmptyString);
      apply preserves_modify; intros s Hs; apply insert_values_nonempty;
      try assumption; discriminate.
  - apply preserves_modify. intros s Hs. exact Hs.
  - unfold readParameters.
    apply preserves_bind; [auto with preserve|]. intros [content|]; [|auto with preserve].
    generalize 1 as lineCount.
    induction (getlines content) as [|line rest IH]; intros lineCount; simpl.
    + auto with preserve.
    + apply preserves_bind; [apply parse_line_values_nonempty | intros _; apply IH].
  - unfold writeParameterFile.
    apply preserves_bind; [auto with preserve|]. intros [|]; [|auto with preserve].
    apply preserves_bind; [auto with preserve|]. intros this.
    apply preserves_modify. intros s Hs. exact Hs.
  - unfold writeCurrentParameters.
    apply preserves_bind; auto with preserve.
  - unfold getParameterValue.
    apply preserves_bind; [auto with preserve|]. intros [value|]; [|auto with preserve].
    destruct (String.eqb value NO_DEFAULT_VALUE_STRING); auto with preserve.
Qed.

Lemma reachable_values_nonempty (s : state) : reachable s -> values_nonempty_state s.
Proof.
  induction 1 as [w | A m s s' o Hs IH Hm E _ | s w Hs IH].
  - constructor.
  - eapply method_values_nonempty; eassumption.
  - exact IH.
Qed.

Lemma find_In (k v : string) (m : StdMap.t) : StdMap.find k m = Some v -> In (k, v) m.
Proof.
  induction m as [|[k' v'] m IH]; simpl; [discriminate|].
  destruct (String.eqb_spec k' k) as [->|Hne].
  - intros H. inversion H. now left.
  - intros H. right. now apply IH.
Qed.

(** X4.  On an object a program can reach, a value that
    [getParameterValue] returns is the string stored under the name; it is
    never the empty string and never the marker, and the call leaves the
    object and the world as they were. *)
Theorem getParameterValue_returns (s s' : state) (name value : string) :
  reachable s ->
  getParameterValue name s = (Returns value, s') ->
  StdMap.find name (nameValueMap (self s)) = Some value /\
  value <> EmptyString /\
  value <> NO_DEFAULT_VALUE_STRING /\
  s' = s.
Proof.
  intros Hreach. unfold getParameterValue, bind, gets, throw, ret.
  destruct (StdMap.find name (nameValueMap (self s))) as [v|] eqn:Hfound; [|discriminate].
  destruct (String.eqb_spec v NO_DEFAULT_VALUE_STRING) as [|Hmark]; [discriminate|].
  intros R. inversion R; subst. repeat split; try assumption.
  apply reachable_values_nonempty in Hreach.
  unfold values_nonempty_state, values_nonempty in Hreach.
  rewrite Forall_forall in Hreach.
  apply (Hreach (name, value)). now apply find_In.
Qed.

Lemma getParameterValue_returns_witness :
  getParameterValue "a" two_defaults = (Returns "1", two_defaults) /\
  StdMap.find "a" (nameValueMap (self two_defaults)) = Some "1" /\
  "1" <> EmptyString.
Proof.
  split; [reflexivity|].
  destruct (getParameterValue_returns two_defaults two_defaults "a" "1"
              two_defaults_reachable eq_refl) as [Hfound [Hne _]].
  split; assumption.
Defined.

(** ** What [readParameters] leaves alone *)

Lemma set_nameValueMap_same (s : state) : set_nameValueMap (nameValueMap (self s)) s = s.
Proof. now destruct s as [[m c] w]. Qed.

(** Whatever holds of the state and survives an assignment to an entry
    and a line on [std::cout] holds after [readParameters], however the
    call ends. *)
Lemma readParameters_preserves (P : state -> Prop) (filename : string) :
  (forall s name value,
     P s -> P (set_nameValueMap (StdMap.assign name value (nameValueMap (self s))) s)) ->
  (forall s text, P s -> P (put_cout text s)) ->
  preserves P (readParameters filename).
Proof.
  intros Hassign Hcout.
  assert (forall lineCount line, preserves P (parse_line filename lineCount line)) as Hline.
  { intros lineCount line. unfold parse_line.
    apply preserves_bind; [auto with preserve|]. intros comment.
    apply preserves_bind; [auto with preserve|].
    intros [[name value]|]; [|auto with preserve].
    apply preserves_bind; [auto with preserve|]. intros [found|].
    - apply preserves_modify. intros s Hs. now apply Hassign.
    - apply preserves_modify. intros s Hs. now apply Hcout. }
  unfold readParameters.
  apply preserves_bind; [auto with preserve|]. intros [content|]; [|auto with preserve].
  generalize 1 as lineCount.
  induction (getlines content) as [|line rest IH]; intros lineCount; simpl.
  - auto with preserve.
  - apply preserves_bind; [apply Hline | intros _; apply IH].
Qed.

(** X7.  However [readParameters] ends, by returning, by throwing or in
    the out-of-bounds read, the object has the names it had, in the same
    order, and the same comment string, and no file has changed: the call
    changes values of entries and writes to [std::cout], nothing else. *)
Theorem readParameters_changes_values_only
  (s s' : state) (filename : string) (o : outcome unit) :
  readParameters filename s = (o, s') ->
  StdMap.keys (nameValueMap (self s')) = StdMap.keys (nameValueMap (self s)) /\
  commentString (self s') = commentString (self s) /\
  files (world s') = files (world s) /\
  writable (world s') = writable (world s).
Proof.
  intros Hread.
  apply (readParameters_preserves
           (fun t => StdMap.keys (nameValueMap (self t)) = StdMap.keys (nameValueMap (self s)) /\
                     commentString (self t) = commentString (self s) /\
                     files (world t) = files (world s) /\
                     writable (world t) = writable (world s))
           filename) with (s := s) (o := o); [ | | auto | exact Hread ].
  - intros t name value [Hk Hrest]. simpl. rewrite keys_assign. auto.
  - intros t text H. exact H.
Qed.

Lemma readParameters_changes_values_only_witness :
  readParameters "F" unknown_example =
    (Returns tt, put_cout (unknown_identifier_warning "unknownname") unknown_example) /\
  StdMap.keys (nameValueMap
                 (self (put_cout (unknown_identifier_warning "unknownname") unknown_example))) =
  StdMap.keys (nameValueMap (self unknown_example)).
Proof.
  split; [reflexivity|].
  apply (readParameters_changes_values_only unknown_example _ "F" (Returns tt)).
  reflexivity.
Defined.

Lemma find_empty (line : string) : StdString.find line EmptyString = 0.
Proof. unfold StdString.find. now destruct line. Qed.

Lemma substr_nothing (line : string) : StdString.substr line 0 0 = Returns EmptyString.
Proof.
  unfold StdString.substr. pose proof (size_nonneg line).
  replace (0 <=? StdString.size line) with true by (symmetry; apply Z.leb_le; lia).
  replace (Z.min 0 (StdString.size line - 0)) with 0 by lia.
  now destruct line.
Qed.

Lemma scan_line_empty_comment (filename line : string) (lineCount : Z) :
  scan_line EmptyString filename lineCount line = Returns None.
Proof. unfold scan_line. now rewrite find_empty, substr_nothing. Qed.

(** X5.  The empty comment string is found at the start of every line,
    so every line is empty once the comment is cut off: after
    [setCommentString("")], [readParameters] returns for every file that
    opens, whatever it holds, and changes nothing. *)
Theorem readParameters_empty_comment (s : state) (filename content : string) :
  files (world s) filename = Some content ->
  (setCommentString EmptyString ;; readParameters filename) s =
  (Returns tt, set_commentString EmptyString s).
Proof.
  intros Hfile. unfold setCommentString, readParameters, bind at 1 2, modify, gets at 1.
  simpl. rewrite Hfile.
  generalize 1 as lineCount.
  induction (getlines content) as [|line rest IH]; intros lineCount; simpl; [reflexivity|].
  unfold bind. rewrite parse_line_skips by apply scan_line_empty_comment.
  apply IH.
Qed.

Lemma readParameters_empty_comment_witness :
  files (world comment_example) "F" = Some ("x 5 # comment" ++ endl) /\
  (setCommentString EmptyString ;; readParameters "F") comment_example =
  (Returns tt, set_commentString EmptyString comment_example).
Proof.
  split; [reflexivity|].
  apply (readParameters_empty_comment comment_example "F" ("x 5 # comment" ++ endl)).
  reflexivity.
Defined.

Lemma parse_line_frame (s s' : state) (filename line k : string) (lineCount : Z)
  (o : outcome unit) :
  parse_line filename lineCount line s = (o, s') ->
  (forall v, scan_line (commentString (self s)) filename 1 line <> Returns (Some (k, v))) ->
  StdMap.find k (nameValueMap (self s')) = StdMap.find k (nameValueMap (self s)) /\
  commentString (self s') = commentString (self s).
Proof.
  intros Hline Hother. revert Hline. unfold parse_line, bind, gets, lift, modify, ret.
  destruct (scan_line _ filename lineCount line) as [[[name value]|]|e|] eqn:Hscan;
    try (intros R; inversion R; subst; now split).
  assert (k <> name) as Hne.
  { intros ->. apply (Hother value). now apply (scan_line_any_count _ _ _ lineCount). }
  destruct (StdMap.find name _); intros R; inversion R; subst; simpl.
  - split; [now apply find_assign_other | reflexivity].
  - now split.
Qed.

Lemma read_lines_frame (filename k : string) (lines : list string) :
  forall (lineCount : Z) (s s' : state) (o : outcome unit),
    read_lines filename lineCount lines s = (o, s') ->
    (forall line v, In line lines ->
       scan_line (commentString (self s)) filename 1 line <> Returns (Some (k, v))) ->
    StdMap.find k (nameValueMap (self s')) = StdMap.find k (nameValueMap (self s)).
Proof.
  induction lines as [|line rest IH]; intros lineCount s s' o; simpl.
  - intros R _. inversion R. now subst.
  - unfold bind.
    destruct (parse_line filename lineCount line s) as [[[]|e|] s1] eqn:Hline; intros R Hother;
      destruct (parse_line_frame _ _ _ _ k _ _ Hline) as [Hfind Hcomment];
      try (intros v; apply Hother; now left).
    + rewrite <- Hfind. apply (IH _ _ _ _ R).
      intros l v Hin. rewrite Hcomment. apply Hother. now right.
    + inversion R. now subst.
    + inversion R. now subst.
Qed.

(** X6.  [readParameters] changes the value of a name only when a line of
    the file scans to that name: for a name that no line scans to, the
    entry is after the call what it was before, however the call ends. *)
Theorem readParameters_frame
  (s s' : state) (filename content k : string) (o : outcome unit) :
  files (world s) filename = Some content ->
  readParameters filename s = (o, s') ->
  (forall line v, In line (getlines content) ->
     scan_line (commentString (self s)) filename 1 line <> Returns (Some (k, v))) ->
  StdMap.find k (nameValueMap (self s')) = StdMap.find k (nameValueMap (self s)).
Proof.
  intros Hfile. unfold readParameters, bind at 1, gets at 1. rewrite Hfile.
  apply read_lines_frame.
Qed.

Lemma readParameters_frame_witness :
  StdMap.find "x" (nameValueMap (self (snd (readParameters "F" unknown_example)))) =
  StdMap.find "x" (nameValueMap (self unknown_example)).
Proof.
  apply (readParameters_frame unknown_example _ "F" ("unknownname 5" ++ endl) "x"
           (fst (readParameters "F" unknown_example))).
  - reflexivity.
  - reflexivity.
  - intros line v [<- | []]. vm_compute. discriminate.
Defined.

(** X13.  An exception that leaves [readParameters] is the one for a
    file that does not open, with the object and the world unchanged, or
    the one for a line without a space: [std::out_of_range] never leaves
    the call, and neither does the exception for an empty value. *)
Theorem readParameters_exceptions (s s' : state) (filename : string) (e : exception) :
  readParameters filename s = (Throws e, s') ->
  (e = cannot_read filename /\ s' = s) \/
  (exists lineCount, e = parameter_without_value lineCount filename).
Proof.
  unfold readParameters, bind at 1, gets at 1, throw.
  destruct (files (world s) filename) as [content|].
  - intros R. right. now apply read_lines_throws in R.
  - intros R. inversion R. now left.
Qed.

Lemma readParameters_exceptions_witness :
  readParameters "G" comment_example = (Throws (cannot_read "G"), comment_example) /\
  ((cannot_read "G" = cannot_read "G" /\ comment_example = comment_example) \/
   (exists lineCount, cannot_read "G" = parameter_without_value lineCount "G")).
Proof.
  split; [reflexivity|].
  apply (readParameters_exceptions comment_example comment_example "G" (cannot_read "G")).
  reflexivity.
Defined.

(** ** Registration and the map *)

Lemma sorted_NoDup (l : list string) : StronglySorted StdMap.key_lt l -> NoDup l.
Proof.
  induction 1 as [|k l Hl IH Hall]; constructor; [|exact IH].
  intros Hin. rewrite Forall_forall in Hall. specialize (Hall k Hin).
  unfold StdMap.key_lt in Hall. rewrite compare_refl in Hall. discriminate.
Qed.

Lemma In_find (k v : string) (m : StdMap.t) :
  StdMap.ordered m -> In (k, v) m -> StdMap.find k m = Some v.
Proof.
  unfold StdMap.ordered. induction m as [|[k' v'] m IH]; simpl; intros Hm Hin; [contradiction|].
  inversion Hm as [|? ? Hm' Hall]; subst.
  destruct (String.eqb_spec k' k) as [->|Hne].
  - destruct Hin as [E | Hin]; [now inversion E|].
    exfalso. rewrite Forall_forall in Hall.
    assert (StdMap.key_lt k k) as Hkk by (apply Hall; now apply (in_map fst _ (k, v))).
    unfold StdMap.key_lt in Hkk. rewrite compare_refl in Hkk. discriminate.
  - destruct Hin as [E | Hin]; [inversion E; congruence|]. now apply IH.
Qed.

(** X11.  On an object a program can reach the names of the map ascend
    strictly in the order of the keys, so no name is registered twice, and
    the entries of the map are exactly what a lookup finds: the pair of a
    name and a value is in the map when and only when [find] returns the
    value for the name. *)
Theorem reachable_names_unique (s : state) :
  reachable s ->
  StronglySorted StdMap.key_lt (StdMap.keys (nameValueMap (self s))) /\
  NoDup (StdMap.keys (nameValueMap (self s))) /\
  (forall k v, In (k, v) (nameValueMap (self s)) <->
               StdMap.find k (nameValueMap (self s)) = Some v).
Proof.
  intros Hreach. apply reachable_ordered in Hreach. split; [exact Hreach | split].
  - now apply sorted_NoDup.
  - intros k v. split; [now apply In_find | apply find_In].
Qed.

Lemma reachable_names_unique_witness :
  NoDup (StdMap.keys (nameValueMap (self two_defaults))).
Proof.
  apply (reachable_names_unique two_defaults two_defaults_reachable).
Defined.

(** X12.  [addParameter] touches the entry of its own name only: whether
    it returns or throws, every other name has the entry it had, and the
    comment string and the world are unchanged. *)
Theorem addParameter_frame (s s' : state) (name defaultValue k : string) (o : outcome unit) :
  addParameter name defaultValue s = (o, s') ->
  k <> name ->
  StdMap.find k (nameValueMap (self s')) = StdMap.find k (nameValueMap (self s)) /\
  commentString (self s') = commentString (self s) /\
  world s' = world s.
Proof.
  unfold addParameter, bind, gets, throw, modify. intros R Hne.
  destruct (StdMap.find name (nameValueMap (self s))).
  - inversion R. now subst.
  - destruct (String.eqb defaultValue EmptyString); inversion R; subst; simpl;
      (split; [now apply find_insert_other | now split]).
Qed.

Lemma addParameter_frame_witness :
  "y" <> "c" /\
  StdMap.find "y" (nameValueMap (self (snd (addParameter "c" "3" abort_example)))) =
  StdMap.find "y" (nameValueMap (self abort_example)).
Proof.
  split; [discriminate|].
  apply (addParameter_frame abort_example _ "c" "3" "y"
           (fst (addParameter "c" "3" abort_example))); [reflexivity | discriminate].
Defined.

(** ** The anatomy of a line *)

Lemma prefix_char (a b : ascii) (s : string) :
  String.prefix (String a EmptyString) (String b s) = Ascii.eqb a b.
Proof.
  simpl. destruct (ascii_dec a b) as [->|Hne].
  - rewrite Ascii.eqb_refl. now destruct s.
  - symmetry. now apply Ascii.eqb_neq.
Qed.

(** The first space of a line whose name holds none is the one behind
    the name. *)
Lemma index_space (name rest : string) :
  space_free name = true ->
  String.index 0 (String space EmptyString) (name ++ String space rest) =
  Some (String.length name).
Proof.
  induction name as [|c name IH]; intros Hfree.
  - simpl append. cbn [String.index]. rewrite prefix_char. reflexivity.
  - simpl in Hfree. apply andb_true_iff in Hfree as [Hc Hname].
    apply negb_true_iff in Hc. rewrite Ascii.eqb_sym in Hc.
    simpl append. cbn [String.index]. rewrite prefix_char, Hc, (IH Hname). reflexivity.
Qed.

Lemma index_prefix (c r : string) : String.index 0 c (c ++ r) = Some 0%nat.
Proof.
  destruct (c ++ r) as [|b t] eqn:E.
  - destruct c; [reflexivity | discriminate].
  - cbn [String.index].
    assert (String.prefix c (String b t) = true) as ->; [|reflexivity].
    apply String.prefix_correct. rewrite <- E. apply substring_prefix.
Qed.

Lemma substr_whole (line : string) :
  StdString.size line < 2 ^ 32 -> StdString.substr line 0 StdString.npos = Returns line.
Proof.
  intros Hsize. unfold StdString.substr, StdString.npos. pose proof (size_nonneg line).
  replace (0 <=? StdString.size line) with true by (symmetry; apply Z.leb_le; lia).
  replace (Z.min (2 ^ 64 - 1) (StdString.size line - 0)) with (StdString.size line) by lia.
  unfold StdString.size. rewrite Nat2Z.id. simpl. now rewrite substring_all.
Qed.

Lemma substr_name (name rest : string) :
  StdString.substr (name ++ String space rest) 0 (StdString.size name) = Returns name.
Proof.
  unfold StdString.substr. rewrite size_append, size_String.
  pose proof (size_nonneg name). pose proof (size_nonneg rest).
  replace (0 <=? StdString.size name + (1 + StdString.size rest)) with true
    by (symmetry; apply Z.leb_le; lia).
  replace (Z.min (StdString.size name) (StdString.size name + (1 + StdString.size rest) - 0))
    with (StdString.size name) by lia.
  unfold StdString.size. rewrite Nat2Z.id. simpl. now rewrite substring_prefix.
Qed.

Lemma substr_rest (name rest : string) :
  StdString.size (name ++ String space rest) < 2 ^ 32 ->
  StdString.substr (name ++ String space rest) (StdString.size name + 1) StdString.npos =
  Returns rest.
Proof.
  unfold StdString.substr, StdString.npos. rewrite size_append, size_String. intros Hsize.
  pose proof (size_nonneg name). pose proof (size_nonneg rest).
  replace (0 <=? StdString.size name + 1) with true by (symmetry; apply Z.leb_le; lia).
  replace (StdString.size name + 1 <=? StdString.size name + (1 + StdString.size rest))
    with true by (symmetry; apply Z.leb_le; lia).
  replace (Z.min (2 ^ 64 - 1)
             (StdString.size name + (1 + StdString.size rest) - (StdString.size name + 1)))
    with (StdString.size rest) by lia.
  unfold StdString.size.
  replace (Z.to_nat (Z.of_nat (String.length name) + 1)) with (String.length name + 1)%nat by lia.
  rewrite Nat2Z.id, substring_skip. simpl. now rewrite substring_all.
Qed.

(** A line that is a name without a space, a space and a rest, with no
    comment in it: the name and the value are [trim] of the name and of
    the rest. *)
Lemma scan_line_split (comment filename name rest : string) (lineCount : Z) :
  space_free name = true ->
  String.index 0 comment (name ++ String space rest) = None ->
  StdString.size (name ++ String space rest) < 2 ^ 32 ->
  scan_line comment filename lineCount (name ++ String space rest) =
  (name' <- trim name ;;
   value <- trim rest ;;
   if String.eqb value EmptyString
   then Throws (identifier_without_value lineCount filename)
   else Returns (Some (name', value)))%outcome.
Proof.
  intros Hfree Hcomment Hsize. unfold scan_line.
  assert (StdString.find (name ++ String space rest) comment = StdString.npos) as ->
    by (unfold StdString.find; now rewrite Hcomment).
  rewrite (substr_whole _ Hsize). cbn [obind].
  assert (StdString.find_char (name ++ String space rest) space = StdString.size name) as Hfind
    by (unfold StdString.find_char, StdString.find; now rewrite index_space).
  rewrite Hfind.
  rewrite size_append, size_String in Hsize |- *.
  pose proof (size_nonneg name). pose proof (size_nonneg rest).
  replace (StdString.size name + (1 + StdString.size rest) =? 0) with false
    by (symmetry; apply Z.eqb_neq; lia).
  replace (StdString.size name =? StdString.npos) with false
    by (symmetry; apply Z.eqb_neq; unfold StdString.npos; lia).
  rewrite substr_name, substr_rest; [reflexivity|].
  rewrite size_append, size_String. exact Hsize.
Qed.

Lemma space_free_trimmed (name : string) :
  name <> EmptyString -> space_free name = true -> trimmed name = true.
Proof.
  intros Hne Hfree. unfold trimmed. apply andb_true_iff. split.
  - destruct name as [|c t]; [congruence|]. simpl in *.
    now apply andb_true_iff in Hfree as [Hc _].
  - destruct (space_free_last name Hfree Hne) as [u [c [-> Hc]]].
    rewrite last_not_space_snoc. apply negb_true_iff. now apply Ascii.eqb_neq.
Qed.

Lemma trim_name (name rest : string) :
  name <> EmptyString -> space_free name = true ->
  StdString.size (name ++ String space rest) < 2 ^ 32 ->
  trim name = Returns name.
Proof.
  intros Hne Hfree Hsize. apply trim_fixed; [now apply space_free_trimmed|].
  rewrite size_append, size_String in Hsize. pose proof (size_nonneg rest). lia.
Qed.

(** X9.  A line that is a name without a space, one space and a rest,
    with no comment string in it, scans to the name and [trim] of the
    rest; the loop body reads out of bounds when the rest is blank, and
    the value is the rest itself when the rest neither starts nor ends with
    a space. *)
Theorem scan_line_plain (comment filename name rest : string) (lineCount : Z) :
  name <> EmptyString ->
  space_free name = true ->
  String.index 0 comment (name ++ String space rest) = None ->
  StdString.size (name ++ String space rest) < 2 ^ 32 ->
  scan_line comment filename lineCount (name ++ String space rest) =
    match trim rest with
    | Returns value => Returns (Some (name, value))
    | Throws e => Throws e
    | Undefined => Undefined
    end /\
  (blank rest = true ->
   scan_line comment filename lineCount (name ++ String space rest) = Undefined) /\
  (trimmed rest = true ->
   scan_line comment filename lineCount (name ++ String space rest) =
   Returns (Some (name, rest))).
Proof.
  intros Hne Hfree Hcomment Hsize.
  rewrite (scan_line_split _ _ _ _ _ Hfree Hcomment Hsize).
  rewrite (trim_name name rest Hne Hfree Hsize). cbn [obind].
  assert (StdString.size rest < 2 ^ 32) as Hrest.
  { rewrite size_append, size_String in Hsize. pose proof (size_nonneg name). lia. }
  split; [|split].
  - destruct (trim rest) as [value| |] eqn:Ev; cbn [obind]; try reflexivity.
    apply trim_nonempty, String.eqb_neq in Ev. now rewrite Ev.
  - intros Hblank. rewrite (blank_is_spaces rest Hblank).
    rewrite trim_spaces_undefined; [reflexivity | exact Hrest].
  - intros Htrimmed. rewrite trim_fixed by (try assumption; lia). cbn [obind].
    assert (rest <> EmptyString) as Hr by (intros ->; discriminate).
    apply String.eqb_neq in Hr. now rewrite Hr.
Qed.

Lemma scan_line_plain_witness :
  scan_line "#" "F" 1 "name   a value  " = Returns (Some ("name", " a value")).
Proof.
  destruct (scan_line_plain "#" "F" "name" "  a value  " 1) as [E _];
    [discriminate | reflexivity | reflexivity | vm_compute; reflexivity |].
  exact E.
Defined.

(** ** Lines one after the other *)

Lemma getlines_cons_line (line rest : string) :
  newline_free line = true -> getlines (line ++ endl ++ rest) = line :: getlines rest.
Proof.
  induction line as [|c line IH]; simpl; intros H; [reflexivity|].
  apply andb_true_iff in H as [Hc Hline].
  apply negb_true_iff in Hc. rewrite Hc. simpl in IH. now rewrite (IH Hline).
Qed.

Lemma assign_assign (k v1 v2 : string) (m : StdMap.t) :
  StdMap.assign k v2 (StdMap.assign k v1 m) = StdMap.assign k v2 m.
Proof.
  induction m as [|[k' v'] m IH]; simpl; [reflexivity|].
  destruct (String.eqb k' k) eqn:E; simpl; rewrite E; [reflexivity | now rewrite IH].
Qed.

(** X8.  When two lines of a file set the same registered name, the
    second one decides: after the call the value of the name is the value
    of the second line, and the object is as if the first line had not been
    there. *)
Theorem last_line_wins
  (s : state) (filename line1 line2 name value1 value2 old : string) :
  newline_free line1 = true ->
  newline_free line2 = true ->
  files (world s) filename = Some (line1 ++ endl ++ line2 ++ endl) ->
  scan_line (commentString (self s)) filename 1 line1 = Returns (Some (name, value1)) ->
  scan_line (commentString (self s)) filename 1 line2 = Returns (Some (name, value2)) ->
  StdMap.find name (nameValueMap (self s)) = Some old ->
  readParameters filename s =
    (Returns tt, set_nameValueMap (StdMap.assign name value2 (nameValueMap (self s))) s) /\
  StdMap.find name (StdMap.assign name value2 (nameValueMap (self s))) = Some value2.
Proof.
  intros Hl1 Hl2 Hfile Hscan1 Hscan2 Hfound. split; [|now apply (find_assign _ _ old)].
  unfold readParameters, bind at 1, gets at 1. rewrite Hfile.
  rewrite (getlines_cons_line _ _ Hl1), (getlines_single _ Hl2).
  cbn [read_lines]. unfold bind at 1.
  rewrite (parse_line_assigns s filename 1 line1 name value1 old Hscan1 Hfound).
  unfold bind at 1.
  rewrite (parse_line_assigns _ filename _ line2 name value2 value1).
  - unfold ret. simpl. now rewrite assign_assign.
  - simpl. now apply (scan_line_any_count _ _ _ 1).
  - simpl. now apply (find_assign _ _ old).
Qed.

Lemma last_line_wins_witness :
  readParameters "F" (put_file "F" ("x 5" ++ endl ++ "x 6" ++ endl) abort_example) =
  (Returns tt,
   set_nameValueMap [("x", "6"); ("y", "1")]
     (put_file "F" ("x 5" ++ endl ++ "x 6" ++ endl) abort_example)).
Proof.
  destruct (last_line_wins (put_file "F" ("x 5" ++ endl ++ "x 6" ++ endl) abort_example)
              "F" "x 5" "x 6" "x" "5" "6" NO_DEFAULT_VALUE_STRING
              eq_refl eq_refl eq_refl eq_refl eq_refl eq_refl) as [E _].
  exact E.
Defined.

(** ** Reading back the file the object wrote *)

Lemma file_line_entry_line (entry : string * string) :
  file_line entry = entry_line entry ++ endl.
Proof. unfold file_line, entry_line. now normalise_append. Qed.

Lemma newline_free_append (a b : string) :
  newline_free (a ++ b) = newline_free a && newline_free b.
Proof. induction a as [|c a IH]; simpl; [reflexivity|]. now rewrite IH, andb_assoc. Qed.

Lemma getlines_join (comment : string) (entries : list (string * string)) :
  Forall (plain_entry comment) entries ->
  getlines (join (map file_line entries)) = map entry_line entries.
Proof.
  induction 1 as [|entry entries Hentry _ IH]; [reflexivity|].
  cbn [map join]. rewrite file_line_entry_line, append_assoc.
  destruct Hentry as [_ [_ [_ [Hk [Hv _]]]]].
  rewrite getlines_cons_line, IH; [reflexivity|].
  unfold entry_line. rewrite newline_free_append. simpl. now rewrite Hk, Hv.
Qed.

Lemma assign_same (k v : string) (m : StdMap.t) :
  StdMap.find k m = Some v -> StdMap.assign k v m = m.
Proof.
  induction m as [|[k' v'] m IH]; simpl; [reflexivity|].
  destruct (String.eqb k' k).
  - intros H. inversion H. reflexivity.
  - intros H. now rewrite IH.
Qed.

(** A line that sets a name to the value it has changes nothing. *)
Lemma read_lines_own_entries (s : state) (filename : string) (entries : list (string * string)) :
  (forall entry, In entry entries ->
     plain_entry (commentString (self s)) entry /\
     StdMap.find (fst entry) (nameValueMap (self s)) = Some (snd entry)) ->
  forall lineCount,
    read_lines filename lineCount (map entry_line entries) s = (Returns tt, s).
Proof.
  induction entries as [|[k v] entries IH]; intros Hall lineCount; [reflexivity|].
  cbn [map read_lines]. unfold bind.
  destruct (Hall (k, v) (or_introl eq_refl)) as [[Hne [Hfree [Htr [_ [_ [Hc Hs]]]]]] Hfound].
  cbn [fst snd] in *.
  rewrite (parse_line_assigns s filename lineCount (entry_line (k, v)) k v v).
  - rewrite (assign_same _ _ _ Hfound), set_nameValueMap_same.
    apply IH. intros entry Hin. apply Hall. now right.
  - unfold entry_line. cbn [fst snd].
    rewrite (scan_line_split _ _ _ _ _ Hfree Hc Hs).
    rewrite (trim_name k v Hne Hfree Hs). cbn [obind].
    assert (StdString.size v <= 2 ^ 32) as Hv.
    { rewrite size_append, size_String in Hs. pose proof (size_nonneg k). lia. }
    rewrite (trim_fixed v Htr Hv). cbn [obind].
    assert (v <> EmptyString) as Hr by (intros ->; discriminate).
    apply String.eqb_neq in Hr. now rewrite Hr.
  - exact Hfound.
Qed.

(** X10.  An object a program can reach writes its parameter file and
    reads it back: when the comment string holds no newline and every
    entry that holds a value is plain (a name without spaces, a value
    that neither starts nor ends with a space, no newline and no comment
    string in the line), both calls return and the second one changes
    nothing, so every entry has after the round trip the value it had. *)
Theorem write_then_read (s : state) (filename : string) :
  reachable s ->
  writable (world s) filename = true ->
  newline_free (commentString (self s)) = true ->
  Forall (plain_entry (commentString (self s))) (filter holds_value (nameValueMap (self s))) ->
  exists s1,
    writeParameterFile filename s = (Returns tt, s1) /\
    self s1 = self s /\
    readParameters filename s1 = (Returns tt, s1).
Proof.
  intros Hreach Hopen Hcomment Hplain.
  unfold writeParameterFile, bind, gets, modify. rewrite Hopen.
  eexists. split; [reflexivity|]. split; [reflexivity|].
  set (s1 := put_file filename _ s).
  unfold readParameters, bind at 1, gets at 1.
  assert (files (world s1) filename =
          Some ((commentString (self s) ++ header_text) ++ endl ++
                join (map file_line (filter holds_value (nameValueMap (self s)))))) as ->.
  { unfold s1, put_file. simpl files. rewrite String.eqb_refl, write_entries_join.
    unfold header_text, endl. f_equal. now normalise_append. }
  rewrite getlines_cons_line
    by (rewrite newline_free_append, Hcomment; reflexivity).
  rewrite (getlines_join _ _ Hplain).
  cbn [read_lines]. unfold bind at 1.
  rewrite parse_line_skips.
  - apply (read_lines_own_entries s1 filename). intros entry Hin. split.
    + rewrite Forall_forall in Hplain. now apply Hplain.
    + apply filter_In in Hin as [Hin _]. destruct entry as [k v].
      apply In_find; [exact (reachable_ordered s Hreach) | exact Hin].
  - unfold scan_line, StdString.find. simpl commentString.
    rewrite index_prefix. change (Z.of_nat 0) with 0. now rewrite substr_nothing.
Qed.

Lemma write_then_read_witness :
  exists s1,
    writeParameterFile "F" two_defaults = (Returns tt, s1) /\
    self s1 = self two_defaults /\
    readParameters "F" s1 = (Returns tt, s1).
Proof.
  apply (write_then_read two_defaults "F" two_defaults_reachable eq_refl eq_refl).
  repeat constructor; try discriminate; vm_compute; reflexivity.
Defined.

(** ** Reading the file another object wrote *)

(** Lines of plain entries with different names, all registered: the
    loop returns, every name of a line has the value of its line, and every
    other name and [std::cout] are as before. *)
Lemma read_lines_entries (filename : string) (entries : list (string * string)) :
  NoDup (StdMap.keys entries) ->
  forall (t : state) (lineCount : Z),
    Forall (plain_entry (commentString (self t))) entries ->
    (forall k v, In (k, v) entries -> StdMap.find k (nameValueMap (self t)) <> None) ->
    exists t',
      read_lines filename lineCount (map entry_line entries) t = (Returns tt, t') /\
      (forall k v, In (k, v) entries -> StdMap.find k (nameValueMap (self t')) = Some v) /\
      (forall k, ~ In k (StdMap.keys entries) ->
         StdMap.find k (nameValueMap (self t')) = StdMap.find k (nameValueMap (self t))) /\
      commentString (self t') = commentString (self t) /\
      world t' = world t.
Proof.
  induction entries as [|[k v] entries IH]; intros Hnodup t lineCount Hplain Hreg.
  - exists t. repeat split; auto. intros k v [].
  - inversion Hnodup as [|? ? Hnotin Hnodup']; subst.
    inversion Hplain as [|? ? Hentry Hplain']; subst.
    destruct Hentry as [Hne [Hfree [Htr [_ [_ [Hc Hs]]]]]]. cbn [fst snd] in *.
    destruct (StdMap.find k (nameValueMap (self t))) as [old|] eqn:Hold;
      [|exfalso; apply (Hreg k v); [now left | exact Hold]].
    assert (scan_line (commentString (self t)) filename lineCount (entry_line (k, v)) =
            Returns (Some (k, v))) as Hscan.
    { unfold entry_line. cbn [fst snd].
      rewrite (scan_line_split _ _ _ _ _ Hfree Hc Hs).
      rewrite (trim_name k v Hne Hfree Hs). cbn [obind].
      assert (StdString.size v <= 2 ^ 32) as Hv.
      { rewrite size_append, size_String in Hs. pose proof (size_nonneg k). lia. }
      rewrite (trim_fixed v Htr Hv). cbn [obind].
      assert (v <> EmptyString) as Hr by (intros ->; discriminate).
      apply String.eqb_neq in Hr. now rewrite Hr. }
    set (t1 := set_nameValueMap (StdMap.assign k v (nameValueMap (self t))) t).
    destruct (IH Hnodup' t1 (unsigned (lineCount + 1))) as [t' [Hread [Hset [Hframe [Hcs Hw]]]]].
    + exact Hplain'.
    + intros k' v' Hin. simpl.
      destruct (String.eqb_spec k' k) as [->|Hk].
      * now rewrite (find_assign k v old).
      * rewrite find_assign_other by exact Hk. apply (Hreg k' v'). now right.
    + exists t'. split; [|split; [|split; [|split]]].
      * cbn [map read_lines]. unfold bind.
        now rewrite (parse_line_assigns t filename lineCount _ k v old Hscan Hold).
      * intros k' v' [E | Hin]; [|now apply (Hset k' v')].
        inversion E; subst k' v'. rewrite (Hframe k Hnotin). simpl.
        now apply (find_assign k v old).
      * intros k' Hk'.
        assert (k' <> k) as Hk by (intros ->; apply Hk'; now left).
        assert (~ In k' (StdMap.keys entries)) as Hrest by (intros Hin; apply Hk'; now right).
        rewrite (Hframe k' Hrest). simpl. now apply find_assign_other.
      * exact Hcs.
      * exact Hw.
Qed.

(** X14.  What one object writes another reads.  When the first object
    can be reached, its comment string holds no newline and its entries
    that hold a value are plain, and a second object with the same comment
    string has registered their names, then [readParameters] on the file
    that the first object wrote returns, gives every such name in the second
    object the value it has in the first, leaves every other name of the
    second object as it was, and writes no warning. *)
Theorem read_written_file (s s1 t : state) (filename : string) :
  reachable s ->
  newline_free (commentString (self s)) = true ->
  Forall (plain_entry (commentString (self s))) (filter holds_value (nameValueMap (self s))) ->
  writeParameterFile filename s = (Returns tt, s1) ->
  files (world t) filename = files (world s1) filename ->
  commentString (self t) = commentString (self s) ->
  (forall k v, In (k, v) (filter holds_value (nameValueMap (self s))) ->
     StdMap.find k (nameValueMap (self t)) <> None) ->
  exists t',
    readParameters filename t = (Returns tt, t') /\
    (forall k v, StdMap.find k (nameValueMap (self s)) = Some v ->
       v <> NO_DEFAULT_VALUE_STRING ->
       StdMap.find k (nameValueMap (self t')) = Some v) /\
    (forall k, ~ In k (StdMap.keys (filter holds_value (nameValueMap (self s)))) ->
       StdMap.find k (nameValueMap (self t')) = StdMap.find k (nameValueMap (self t))) /\
    world t' = world t.
Proof.
  intros Hreach Hcomment Hplain Hwrite Hfile Hsame Hreg.
  revert Hwrite. unfold writeParameterFile, bind, gets, modify.
  destruct (writable (world s) filename); [|discriminate].
  intros R. inversion R; subst s1; clear R.
  assert (files (world t) filename =
          Some ((commentString (self s) ++ header_text) ++ endl ++
                join (map file_line (filter holds_value (nameValueMap (self s)))))) as Hcontent.
  { rewrite Hfile. unfold put_file. simpl files. rewrite String.eqb_refl, write_entries_join.
    unfold header_text, endl. f_equal. now normalise_append. }
  unfold readParameters, bind at 1, gets at 1. rewrite Hcontent.
  rewrite getlines_cons_line
    by (rewrite newline_free_append, Hcomment; reflexivity).
  rewrite (getlines_join _ _ Hplain).
  cbn [read_lines]. unfold bind at 1.
  rewrite parse_line_skips.
  2:{ unfold scan_line, StdString.find. rewrite Hsame, index_prefix.
      change (Z.of_nat 0) with 0. now rewrite substr_nothing. }
  destruct (read_lines_entries filename (filter holds_value (nameValueMap (self s)))
              (sorted_NoDup _ (filter_keys_sorted _ _ (reachable_ordered s Hreach)))
              t (unsigned (1 + 1)))
    as [t' [Hread [Hset [Hframe [_ Hw]]]]].
  - now rewrite Hsame.
  - exact Hreg.
  - exists t'. split; [exact Hread|]. split; [|split; [exact Hframe | exact Hw]].
    intros k v Hfound Hmark. apply (Hset k v). apply filter_In. split.
    + now apply find_In.
    + unfold holds_value. simpl. apply negb_true_iff. now apply String.eqb_neq.
Qed.

Lemma read_written_file_witness :
  exists t',
    readParameters "F" reader_example = (Returns tt, t') /\
    StdMap.find "a" (nameValueMap (self t')) = Some "1" /\
    StdMap.find "b" (nameValueMap (self t')) = Some "2".
Proof.
  destruct (read_written_file two_defaults (snd (writeParameterFile "F" two_defaults))
              reader_example "F" two_defaults_reachable eq_refl)
    as [t' [Hread [Hset _]]].
  - repeat constructor; try discriminate; vm_compute; reflexivity.
  - reflexivity.
  - reflexivity.
  - reflexivity.
  - intros k v [E | [E | []]]; inversion E; subst; discriminate.
  - exists t'. split; [exact Hread|]. split; apply Hset; try reflexivity; discriminate.
Defined.

(** ** Reading a file twice *)

Lemma registered_assign (k v k0 : string) (m : StdMap.t) :
  registered_in (StdMap.assign k v m) k0 = registered_in m k0.
Proof.
  unfold registered_in. destruct (String.eqb_spec k0 k) as [->|Hne].
  - destruct (StdMap.find k m) as [old|] eqn:Hold.
    + now rewrite (find_assign k v old).
    + assert (StdMap.assign k v m = m) as ->; [|now rewrite Hold].
      clear -Hold. induction m as [|[k' v'] m IH]; simpl in *; [reflexivity|].
      destruct (String.eqb k' k); [discriminate | now rewrite IH].
  - now rewrite find_assign_other.
Qed.

Lemma line_effects_ext (r1 r2 : string -> bool) (comment filename : string)
  (lines : list string) :
  (forall k, r1 k = r2 k) ->
  forall lineCount,
    line_effects r1 comment filename lineCount lines =
    line_effects r2 comment filename lineCount lines.
Proof.
  intros Hext. induction lines as [|line rest IH]; intros lineCount; simpl; [reflexivity|].
  destruct (scan_line comment filename lineCount line) as [[[name value]|]| |]; auto.
  now rewrite IH, Hext.
Qed.

Lemma read_lines_effects (filename : string) (lines : list string) :
  forall (lineCount : Z) (s s' : state) (o : outcome unit),
    read_lines filename lineCount lines s = (o, s') ->
    nameValueMap (self s') =
      assign_all (fst (line_effects (registered_in (nameValueMap (self s)))
                         (commentString (self s)) filename lineCount lines))
                 (nameValueMap (self s)) /\
    o = snd (line_effects (registered_in (nameValueMap (self s)))
               (commentString (self s)) filename lineCount lines).
Proof.
  induction lines as [|line rest IH]; intros lineCount s s' o; simpl.
  - intros R. inversion R. now subst.
  - unfold bind at 1, parse_line, bind, gets, lift, modify, ret.
    destruct (scan_line (commentString (self s)) filename lineCount line)
      as [[[name value]|]|e|] eqn:Hscan.
    + destruct (StdMap.find name (nameValueMap (self s))) as [old|] eqn:Hfound.
      * assert (registered_in (nameValueMap (self s)) name = true) as Hreg
          by (unfold registered_in; now rewrite Hfound).
        intros R. apply IH in R. simpl in R.
        rewrite (line_effects_ext _ (registered_in (nameValueMap (self s)))) in R
          by (intros k; apply registered_assign).
        destruct (line_effects _ _ filename (unsigned (lineCount + 1)) rest) as [L o'].
        rewrite Hreg. exact R.
      * assert (registered_in (nameValueMap (self s)) name = false) as Hreg
          by (unfold registered_in; now rewrite Hfound).
        intros R. apply IH in R. simpl in R.
        destruct (line_effects _ _ filename (unsigned (lineCount + 1)) rest) as [L o'].
        rewrite Hreg. exact R.
    + intros R. now apply IH in R.
    + intros R. inversion R. now subst.
    + intros R. inversion R. now subst.
Qed.

Lemma assign_comm (k1 v1 k2 v2 : string) (m : StdMap.t) :
  k1 <> k2 ->
  StdMap.assign k1 v1 (StdMap.assign k2 v2 m) = StdMap.assign k2 v2 (StdMap.assign k1 v1 m).
Proof.
  intros Hne. induction m as [|[k0 v0] m IH]; simpl; [reflexivity|].
  destruct (String.eqb k0 k2) eqn:E2; destruct (String.eqb k0 k1) eqn:E1;
    simpl; rewrite ?E1, ?E2; try reflexivity.
  - apply String.eqb_eq in E1, E2. congruence.
  - now rewrite IH.
Qed.

(** A later assignment to a name hides an earlier one. *)
Lemma assign_all_absorbs (k v v0 : string) (assignments : list (string * string)) :
  forall m,
    StdMap.assign k v (assign_all assignments (StdMap.assign k v0 m)) =
    StdMap.assign k v (assign_all assignments m).
Proof.
  unfold assign_all.
  induction assignments as [|[k1 v1] assignments IH]; intros m; simpl.
  - apply assign_assign.
  - destruct (String.eqb_spec k1 k) as [->|Hne].
    + now rewrite assign_assign.
    + rewrite assign_comm by exact Hne. apply IH.
Qed.

Lemma assign_all_app (l1 l2 : list (string * string)) (m : StdMap.t) :
  assign_all (l1 ++ l2) m = assign_all l2 (assign_all l1 m).
Proof. unfold assign_all. apply fold_left_app. Qed.

Lemma assign_all_twice (assignments : list (string * string)) (m : StdMap.t) :
  assign_all assignments (assign_all assignments m) = assign_all assignments m.
Proof.
  induction assignments as [|[k v] assignments IH] using rev_ind; [reflexivity|].
  rewrite !assign_all_app. cbn [assign_all fold_left fst snd].
  fold (assign_all assignments (StdMap.assign k v (assign_all assignments m))).
  rewrite assign_all_absorbs. fold (assign_all assignments m). now rewrite IH.
Qed.

Lemma registered_assign_all (assignments : list (string * string)) :
  forall m k, registered_in (assign_all assignments m) k = registered_in m k.
Proof.
  unfold assign_all.
  induction assignments as [|[k1 v1] assignments IH]; intros m k; simpl; [reflexivity|].
  now rewrite IH, registered_assign.
Qed.

Lemma readParameters_opened (s : state) (filename : string) :
  readParameters filename s =
  match files (world s) filename with
  | Some content => read_lines filename 1 (getlines content) s
  | None => (Throws (cannot_read filename), s)
  end.
Proof.
  unfold readParameters, bind, gets, throw.
  destruct (files (world s) filename) as [content|]; [|reflexivity].
  now destruct (read_lines filename 1 (getlines content) s) as [[[]| |] s'].
Qed.

(** X15.  Reading a file a second time ends the way the first reading
    ended and leaves the entries as the first reading left them: the
    values of the object after [readParameters] are a fixed point of the
    same call, whether it returns, throws or reads out of bounds. *)
Theorem readParameters_twice (s s1 : state) (filename : string) (o : outcome unit) :
  readParameters filename s = (o, s1) ->
  exists s2,
    readParameters filename s1 = (o, s2) /\
    nameValueMap (self s2) = nameValueMap (self s1).
Proof.
  intros Hfirst.
  assert (commentString (self s1) = commentString (self s) /\
          files (world s1) = files (world s)) as [Hcomment Hfiles].
  { apply (readParameters_preserves
             (fun t => commentString (self t) = commentString (self s) /\
                       files (world t) = files (world s)) filename)
      with (s := s) (o := o); auto. }
  destruct (readParameters filename s1) as [o2 s2] eqn:Hsecond.
  rewrite readParameters_opened in Hfirst, Hsecond. rewrite Hfiles in Hsecond.
  revert Hfirst Hsecond.
  destruct (files (world s) filename) as [content|].
  - intros Hfirst Hsecond.
    apply read_lines_effects in Hfirst as [Hmap1 Ho1].
    apply read_lines_effects in Hsecond as [Hmap2 Ho2].
    rewrite Hcomment in Hmap2, Ho2.
    rewrite (line_effects_ext _ (registered_in (nameValueMap (self s)))) in Hmap2, Ho2
      by (intros k; rewrite Hmap1; apply registered_assign_all).
    exists s2. split; [congruence|].
    rewrite Hmap2, Hmap1. apply assign_all_twice.
  - intros Hfirst Hsecond. inversion Hfirst; subst. inversion Hsecond; subst.
    now exists s2.
Qed.

Lemma readParameters_twice_witness :
  exists s2,
    readParameters "F" (snd (readParameters "F" comment_example)) = (Returns tt, s2) /\
    nameValueMap (self s2) = nameValueMap (self (snd (readParameters "F" comment_example))).
Proof.
  apply (readParameters_twice comment_example _ "F" (Returns tt)). reflexivity.
Defined.

(** ** What [writeParameterFile] leaves alone *)

(** X16.  [writeParameterFile] returns when the file opens for writing
    and throws the exception for it when it does not, in which case nothing
    has changed; in either case the object, [std::cout] and every file
    under another name are as they were. *)
Theorem writeParameterFile_frame (s s' : state) (filename : string) (o : outcome unit) :
  writeParameterFile filename s = (o, s') ->
  self s' = self s /\
  cout (world s') = cout (world s) /\
  (forall other, other <> filename -> files (world s') other = files (world s) other) /\
  (o = Returns tt /\ writable (world s) filename = true \/
   o = Throws (cannot_write filename) /\ writable (world s) filename = false /\ s' = s).
Proof.
  unfold writeParameterFile, bind, gets, modify, throw.
  destruct (writable (world s) filename) eqn:Hopen; intros R; inversion R; subst.
  - repeat split; auto. simpl. intros other Hne.
    apply String.eqb_neq in Hne. now rewrite Hne.
  - repeat split; auto.
Qed.

Lemma writeParameterFile_frame_witness :
  files (world (snd (writeParameterFile "G" comment_example))) "F" =
  files (world comment_example) "F".
Proof.
  destruct (writeParameterFile_frame comment_example _ "G"
              (fst (writeParameterFile "G" comment_example)) eq_refl)
    as [_ [_ [Hfiles _]]].
  apply Hfiles. discriminate.
Defined.

(** * The writers record by record, and lines for unknown names *)

(** ** Records and lines *)

(** Records that hold no newline, each ended by [std::endl], are the
    lines of their concatenation. *)
Lemma getlines_records (records : list string) :
  Forall (fun record => newline_free record = true) records ->
  getlines (join (map (fun record => record ++ endl) records)) = records.
Proof.
  induction 1 as [|record records Hrecord _ IH]; [reflexivity|].
  cbn [map join]. rewrite append_assoc, getlines_cons_line by exact Hrecord.
  now rewrite IH.
Qed.

Lemma map_records {A} (f g : A -> string) (l : list A) :
  (forall a, f a = g a ++ endl) ->
  map f l = map (fun record => record ++ endl) (map g l).
Proof. intros H. rewrite map_map. apply map_ext. exact H. Qed.

(** ** C8: the parameter file *)

Lemma find_holds_value (s : state) (name value : string) :
  reachable s ->
  (In (name, value) (filter holds_value (nameValueMap (self s))) <->
   StdMap.find name (nameValueMap (self s)) = Some value /\ value <> NO_DEFAULT_VALUE_STRING).
Proof.
  intros Hreach. rewrite filter_In. unfold holds_value. simpl snd.
  rewrite negb_true_iff, String.eqb_neq.
  split; intros [H1 H2]; (split; [|exact H2]).
  - apply In_find; [now apply reachable_ordered | exact H1].
  - now apply find_In.
Qed.

(** C8, as the code has it.  For an object a program can reach and a path
    that opens for writing, [writeParameterFile] returns and leaves as the
    file: the comment string, the fixed header text and a newline; then,
    with names ascending in the order of the keys, the record [name value]
    and a newline for every name whose stored string is not the marker
    [NO_DEFAULT_VALUE_STRING], and for no other name.  When the comment
    string and the names and values written hold no newline, the lines of
    the file are exactly the header line and these records. *)
Theorem writeParameterFile_records (s : state) (filename : string) :
  reachable s ->
  writable (world s) filename = true ->
  let written :=
    filter (fun entry => negb (String.eqb (snd entry) NO_DEFAULT_VALUE_STRING))
           (nameValueMap (self s)) in
  let content :=
    commentString (self s) ++ " Default config file generated by ParameterParser" ++ endl ++
    join (map (fun entry => fst entry ++ " " ++ snd entry ++ endl) written) in
  writeParameterFile filename s = (Returns tt, put_file filename content s) /\
  StronglySorted StdMap.key_lt (map fst written) /\
  (forall name value,
     In (name, value) written <->
     StdMap.find name (nameValueMap (self s)) = Some value /\
     value <> NO_DEFAULT_VALUE_STRING) /\
  (newline_free (commentString (self s)) = true ->
   (forall name value, In (name, value) written ->
      newline_free name = true /\ newline_free value = true) ->
   getlines content =
   (commentString (self s) ++ " Default config file generated by ParameterParser") ::
   map (fun entry => fst entry ++ " " ++ snd entry) written).
Proof.
  intros Hreach Hopen written content.
  change written with (filter holds_value (nameValueMap (self s))) in *.
  split; [|split; [|split]].
  - unfold writeParameterFile, bind, gets, modify. rewrite Hopen.
    rewrite write_entries_join. unfold content.
    change (fun entry : string * string => fst entry ++ " " ++ snd entry ++ endl)
      with file_line.
    f_equal. f_equal. now normalise_append.
  - apply filter_keys_sorted. now apply reachable_ordered.
  - intros name value. now apply find_holds_value.
  - intros Hcomment Hclean. unfold content.
    match goal with
    | |- getlines ?text = _ =>
        assert (text = (commentString (self s) ++ header_text) ++ endl ++
                       join (map file_line (filter holds_value (nameValueMap (self s)))))
          as -> by (unfold header_text, endl, file_line; now normalise_append)
    end.
    rewrite getlines_cons_line by (rewrite newline_free_append, Hcomment; reflexivity).
    f_equal.
    rewrite (map_records file_line (fun entry => fst entry ++ " " ++ snd entry))
      by (intros [k v]; unfold file_line; cbn [fst snd]; now normalise_append).
    apply getlines_records. apply Forall_forall. intros record Hin.
    apply in_map_iff in Hin as [[k v] [<- Hin]]. cbn [fst snd].
    destruct (Hclean k v Hin) as [Hk Hv].
    rewrite newline_free_append, Hk. simpl. exact Hv.
Qed.

Lemma marker_example_reachable : reachable marker_example.
Proof.
  apply (reachable_call unit (addParameter "c" NO_DEFAULT_VALUE_STRING)
           (snd ((addParameter "b" "2" ;; addParameter "a" "") (fresh empty_world)))
           marker_example (Returns tt));
    [ | apply method_addParameter | reflexivity | discriminate ].
  apply (reachable_call unit (addParameter "a" "")
           (snd (addParameter "b" "2" (fresh empty_world))) _ (Returns tt));
    [ | apply method_addParameter | reflexivity | discriminate ].
  apply (reachable_call unit (addParameter "b" "2") (fresh empty_world) _ (Returns tt));
    [ | apply method_addParameter | reflexivity | discriminate ].
  apply reachable_new.
Defined.

Lemma writeParameterFile_records_witness :
  writeParameterFile "F" marker_example =
  (Returns tt,
   put_file "F" ("# Default config file generated by ParameterParser" ++ endl ++
                 "b 2" ++ endl) marker_example).
Proof.
  destruct (writeParameterFile_records marker_example "F" marker_example_reachable eq_refl)
    as [E _].
  exact E.
Defined.

(** C8 as the specification states it fails for a parameter registered
    with the default ["_#N/A#_"]: it was given a default, which is not
    empty, and the file has the header line and no line for it. *)
Lemma writeParameterFile_counterexample :
  NO_DEFAULT_VALUE_STRING <> EmptyString /\
  let s := snd ((addParameter "x" NO_DEFAULT_VALUE_STRING ;; writeParameterFile "F")
                  (fresh empty_world)) in
  StdMap.find "x" (nameValueMap (self s)) = Some NO_DEFAULT_VALUE_STRING /\
  files (world s) "F" = Some ("# Default config file generated by ParameterParser" ++ endl).
Proof. split; [discriminate|]. split; reflexivity. Qed.

(** ** C6: the dump *)

(** A name that is pristine holds the marker. *)
Lemma pristine_holds_marker (name : string) (s : state) :
  pristine name s ->
  StdMap.find name (nameValueMap (self s)) = Some NO_DEFAULT_VALUE_STRING.
Proof.
  induction 1 as [s s' d Hadd Hd
                 | s s' other d o _ IH Hadd
                 | s s' comment o _ IH Hset
                 | s s' filename o _ IH Hread Hlines
                 | s s' filename o _ IH Hwrite
                 | s s' stream o _ IH Hdump
                 | s s' asked o _ IH Hget
                 | s w _ IH].
  - revert Hadd. unfold addParameter, bind, gets, throw, modify.
    destruct (StdMap.find name (nameValueMap (self s))) eqn:Hnew; [discriminate|].
    destruct Hd as [-> | ->]; simpl; intros R; inversion R; subst; simpl;
      now apply find_insert.
  - revert Hadd. unfold addParameter, bind, gets, throw, modify.
    destruct (StdMap.find other (nameValueMap (self s))) eqn:Hother.
    + intros R. inversion R. now subst.
    + assert (name <> other) as Hne by congruence.
      destruct (String.eqb d EmptyString); intros R; inversion R; subst; simpl;
        now rewrite find_insert_other.
  - inversion Hset. subst. exact IH.
  - rewrite readParameters_opened in Hread.
    destruct (files (world s) filename) as [content|] eqn:Hfile.
    + rewrite (read_lines_frame _ name _ _ _ _ _ Hread); [exact IH|].
      intros line value Hin. now apply (Hlines content).
    + inversion Hread. now subst.
  - revert Hwrite. unfold writeParameterFile, bind, gets, modify, throw.
    destruct (writable (world s) filename); intros R; inversion R; subst; exact IH.
  - inversion Hdump. subst. exact IH.
  - revert Hget. unfold getParameterValue, bind, gets, throw, ret.
    destruct (StdMap.find asked (nameValueMap (self s))) as [value|].
    + destruct (String.eqb value NO_DEFAULT_VALUE_STRING); intros R; inversion R; now subst.
    + intros R. inversion R. now subst.
  - exact IH.
Qed.

Lemma append_injective (a b c : string) : a ++ b = a ++ c -> b = c.
Proof. induction a as [|x a IH]; simpl; intros H; [exact H|]. inversion H. auto. Qed.

(** C6, as the code has it.  For an object a program can reach,
    [writeCurrentParameters] returns, changes nothing, and appends to the
    stream the header line and then, with names ascending in the order of
    the keys, one record and a newline for every entry: [name = value] when
    the stored string is not the marker, and [name <no value set>], which
    is never of the first form, when it is.  A name registered with no
    default, with the empty default or with the text of the marker as its
    default, and not set by a parse since, holds the marker and has the
    second record.  When no name and no value holds a newline, the lines of
    the text appended are exactly the header and one line for every
    entry. *)
Theorem writeCurrentParameters_records (s : state) (stream : string) :
  reachable s ->
  let record := fun entry : string * string =>
    if String.eqb (snd entry) NO_DEFAULT_VALUE_STRING
    then fst entry ++ " <no value set>"
    else fst entry ++ " = " ++ snd entry in
  let appended :=
    "Current parameters:" ++ endl ++
    join (map (fun entry => record entry ++ endl) (nameValueMap (self s))) in
  writeCurrentParameters stream s = (Returns (stream ++ appended), s) /\
  StronglySorted StdMap.key_lt (map fst (nameValueMap (self s))) /\
  (forall name value, name ++ " = " ++ value <> name ++ " <no value set>") /\
  (forall name,
     pristine name s ->
     StdMap.find name (nameValueMap (self s)) = Some NO_DEFAULT_VALUE_STRING /\
     In (name ++ " <no value set>") (map record (nameValueMap (self s)))) /\
  ((forall name value, In (name, value) (nameValueMap (self s)) ->
      newline_free name = true /\ newline_free value = true) ->
   getlines appended = "Current parameters:" :: map record (nameValueMap (self s))).
Proof.
  intros Hreach record appended.
  assert (forall entry, dump_line entry = record entry ++ endl) as Hrecord.
  { intros [k v]. unfold dump_line, holds_value, record. cbn [fst snd].
    destruct (String.eqb v NO_DEFAULT_VALUE_STRING); cbn [negb]; now normalise_append. }
  split; [|split; [|split; [|split]]].
  - unfold writeCurrentParameters, bind, gets, ret.
    rewrite write_current_join, (map_ext _ _ Hrecord).
    unfold appended. f_equal. f_equal. now normalise_append.
  - now apply reachable_ordered.
  - intros name value H. apply append_injective in H. discriminate.
  - intros name Hpristine. apply pristine_holds_marker in Hpristine.
    split; [exact Hpristine|].
    apply find_In in Hpristine.
    apply (in_map record) in Hpristine. exact Hpristine.
  - intros Hclean. unfold appended.
    rewrite (getlines_cons_line "Current parameters:") by reflexivity.
    f_equal.
    rewrite (map_records (fun entry => record entry ++ endl) record) by reflexivity.
    apply getlines_records.
    apply Forall_forall. intros text Hin.
    apply in_map_iff in Hin as [[k v] [<- Hin]].
    destruct (Hclean k v Hin) as [Hk Hv]. unfold record. cbn [fst snd].
    destruct (String.eqb v NO_DEFAULT_VALUE_STRING); rewrite newline_free_append, Hk.
    + reflexivity.
    + simpl. exact Hv.
Qed.

Lemma marker_example_pristine :
  pristine "a" marker_example /\ pristine "c" marker_example.
Proof.
  split.
  - apply (pristine_addParameter "a"
             (snd ((addParameter "b" "2" ;; addParameter "a" "") (fresh empty_world)))
             marker_example "c" NO_DEFAULT_VALUE_STRING (Returns tt)); [|reflexivity].
    apply (pristine_registered "a" (snd (addParameter "b" "2" (fresh empty_world))) _ "");
      [reflexivity | left; reflexivity].
  - apply (pristine_registered "c"
             (snd ((addParameter "b" "2" ;; addParameter "a" "") (fresh empty_world)))
             marker_example NO_DEFAULT_VALUE_STRING);
      [reflexivity | right; reflexivity].
Defined.

Lemma writeCurrentParameters_records_witness :
  writeCurrentParameters EmptyString marker_example =
  (Returns ("Current parameters:" ++ endl ++
            "a <no value set>" ++ endl ++ "b = 2" ++ endl ++ "c <no value set>" ++ endl),
   marker_example) /\
  StdMap.find "a" (nameValueMap (self marker_example)) = Some NO_DEFAULT_VALUE_STRING /\
  StdMap.find "c" (nameValueMap (self marker_example)) = Some NO_DEFAULT_VALUE_STRING.
Proof.
  destruct (writeCurrentParameters_records marker_example EmptyString marker_example_reachable)
    as [E [_ [_ [P _]]]].
  destruct marker_example_pristine as [Pa Pc].
  split; [exact E|]. split.
  - destruct (P "a" Pa) as [H _]. exact H.
  - destruct (P "c" Pc) as [H _]. exact H.
Defined.

(** ** C9: a line with a name that is not registered *)

Lemma substring_length (s : string) :
  forall n m : nat, (String.length (String.substring n m s) <= String.length s)%nat.
Proof.
  induction s as [|c s IH]; intros [|n] [|m]; simpl; try lia.
  - specialize (IH 0%nat m). lia.
  - specialize (IH n 0%nat). lia.
  - specialize (IH n (S m)). lia.
Qed.

Lemma substr_size (str str' : string) (i n : Z) :
  StdString.substr str i n = Returns str' -> StdString.size str' <= StdString.size str.
Proof.
  unfold StdString.substr.
  destruct ((0 <=? i) && (i <=? StdString.size str)); [|discriminate].
  intros R. inversion R. unfold StdString.size.
  apply Nat2Z.inj_le, substring_length.
Qed.

(** A line whose text in front of the first comment string is a name
    without a space, a space and a rest: the name and the value are [trim]
    of the name and of the rest. *)
Lemma scan_line_content (comment filename line name rest : string) (lineCount : Z) :
  StdString.size line < 2 ^ 32 ->
  StdString.substr line 0 (StdString.find line comment) = Returns (name ++ String space rest) ->
  space_free name = true ->
  scan_line comment filename lineCount line =
  (name' <- trim name ;;
   value <- trim rest ;;
   if String.eqb value EmptyString
   then Throws (identifier_without_value lineCount filename)
   else Returns (Some (name', value)))%outcome.
Proof.
  intros Hline Hcontent Hfree. unfold scan_line.
  pose proof (substr_size _ _ _ _ Hcontent) as Hsize.
  rewrite Hcontent. cbn [obind].
  assert (StdString.find_char (name ++ String space rest) space = StdString.size name) as Hfind
    by (unfold StdString.find_char, StdString.find; now rewrite index_space).
  rewrite Hfind.
  rewrite size_append, size_String in Hsize |- *.
  pose proof (size_nonneg name). pose proof (size_nonneg rest).
  replace (StdString.size name + (1 + StdString.size rest) =? 0) with false
    by (symmetry; apply Z.eqb_neq; lia).
  replace (StdString.size name =? StdString.npos) with false
    by (symmetry; apply Z.eqb_neq; unfold StdString.npos; lia).
  rewrite substr_name, substr_rest; [reflexivity|].
  rewrite size_append, size_String. lia.
Qed.

(** C9, as the code has it.  Take a line shorter than 2^32 whose text in
    front of the first comment string is a name without a space, a space
    and a rest that is not blank, where the name is not registered.  When
    the name is not empty, the loop body returns, appends to [std::cout]
    the one line [Unknown parameter identifier "name" will be ignored!] and
    changes nothing else, the map of the object included; so does
    [readParameters] on a file that consists of this line.  When the name
    is empty, which is when the line starts with a space, [trim] is called
    on the empty string and reads out of bounds: neither the loop body nor
    [readParameters] returns, and no warning is written. *)
Theorem unknown_identifier_line (s : state) (filename line name rest : string) :
  StdString.size line < 2 ^ 32 ->
  StdString.substr line 0 (StdString.find line (commentString (self s))) =
    Returns (name ++ String space rest) ->
  space_free name = true ->
  blank rest = false ->
  StdMap.find name (nameValueMap (self s)) = None ->
  let warned :=
    {| self := self s;
       world := {| cout := cout (world s) ++
                           "Unknown parameter identifier " ++ dquote ++ name ++ dquote ++
                           " will be ignored!" ++ endl;
                   files := files (world s);
                   writable := writable (world s) |} |} in
  (name <> EmptyString ->
   (forall lineCount, parse_line filename lineCount line s = (Returns tt, warned)) /\
   (newline_free line = true ->
    files (world s) filename = Some (line ++ endl) ->
    readParameters filename s = (Returns tt, warned))) /\
  (name = EmptyString ->
   (forall lineCount, parse_line filename lineCount line s = (Undefined, s)) /\
   (newline_free line = true ->
    files (world s) filename = Some (line ++ endl) ->
    readParameters filename s = (Undefined, s))).
Proof.
  intros Hline Hcontent Hfree Hrest Hnew warned.
  pose proof (substr_size _ _ _ _ Hcontent) as Hsize.
  assert (StdString.size rest <= 2 ^ 32) as Hrestsize.
  { rewrite size_append, size_String in Hsize. pose proof (size_nonneg name). lia. }
  destruct (trim_returns_on_nonblank rest Hrest Hrestsize) as [value Hvalue].
  split.
  - intros Hname.
    assert (forall lineCount, parse_line filename lineCount line s = (Returns tt, warned))
      as Hbody.
    { intros lineCount.
      rewrite (parse_line_warns s filename lineCount line name value); [reflexivity | | exact Hnew].
      rewrite (scan_line_content _ _ _ name rest lineCount Hline Hcontent Hfree).
      rewrite (trim_name name rest Hname Hfree) by lia.
      cbn [obind]. rewrite Hvalue. cbn [obind].
      apply trim_nonempty in Hvalue. apply String.eqb_neq in Hvalue. now rewrite Hvalue. }
    split; [exact Hbody|].
    intros Hnewline Hfile. rewrite (readParameters_single s filename line Hnewline Hfile).
    apply Hbody.
  - intros ->.
    assert (forall lineCount, parse_line filename lineCount line s = (Undefined, s)) as Hbody.
    { intros lineCount. apply parse_line_fails; [discriminate|].
      rewrite (scan_line_content _ _ _ EmptyString rest lineCount Hline Hcontent Hfree).
      reflexivity. }
    split; [exact Hbody|].
    intros Hnewline Hfile. rewrite (readParameters_single s filename line Hnewline Hfile).
    apply Hbody.
Qed.

Lemma unknown_identifier_line_witness :
  readParameters "F" leading_space_example = (Undefined, leading_space_example) /\
  readParameters "F" unknown_example =
  (Returns tt,
   {| self := self unknown_example;
      world := {| cout := "Unknown parameter identifier " ++ dquote ++ "unknownname" ++ dquote ++
                          " will be ignored!" ++ endl;
                  files := files (world unknown_example);
                  writable := writable (world unknown_example) |} |}).
Proof.
  split.
  - destruct (unknown_identifier_line leading_space_example "F" " unknownname 5"
                EmptyString "unknownname 5") as [_ H];
      [ vm_compute; reflexivity | reflexivity | reflexivity | reflexivity | reflexivity | ].
    destruct (H eq_refl) as [_ Hfile]. apply Hfile; reflexivity.
  - destruct (unknown_identifier_line unknown_example "F" "unknownname 5"
                "unknownname" "5") as [H _];
      [ vm_compute; reflexivity | reflexivity | reflexivity | reflexivity | reflexivity | ].
    destruct H as [_ Hfile]; [discriminate|]. apply Hfile; reflexivity.
Defined.
